(** * update-notifier: the change-detection pipeline of [index.js]

    The repository holds two revisions of [index.js].  The first fetches
    pages with axios and cheerio, retries by calling itself, and joins the
    per-URL tasks with [Promise.all].  The second drives a Playwright page,
    retries in a [for] loop, and joins with [Promise.allSettled].  Everything
    else ([checkIfNewOrUpdated], [trimString], the three notification
    senders) is the same text in both.

    The embedding is shallow: asynchronous functions become computations
    in a state-and-exception monad over a [world] that holds the network,
    the [contents] directory, the three report arrays and a trace of the
    calls issued to the outside. *)

From Stdlib Require Import Ascii String List Arith Bool Lia.
From stdpp Require Import gmap strings list fin_maps.

(* ===================================================================== *)
(** ** JavaScript strings *)
(* ===================================================================== *)

(** A string of the model is the sequence of characters of the JavaScript
    string: [String.length] is [.length], [String.eqb] is [===] on strings,
    and a character is whatever unit [.length] counts.  The fixed Japanese
    texts of the notifications are written as their UTF-8 bytes; nothing
    measures or cuts them. *)
Module Js.

(** The line feed written [\n] in the source. *)
Definition lf : ascii := ascii_of_nat 10.
Definition LF : string := String lf EmptyString.

(** [str.substring(0, n)]: the first [n] characters, all of [str] when it
    is shorter. *)
Definition substring0 (str : string) (n : nat) : string :=
  String.substring 0 n str.

(** [str.split('\n')]. *)
Fixpoint split (s : string) : list string :=
  match s with
  | EmptyString => [EmptyString]
  | String c s' =>
      if Ascii.eqb c lf then EmptyString :: split s'
      else match split s' with
           | l :: ls => String c l :: ls
           | [] => [String c EmptyString]
           end
  end.

(** [arr.join('\n')]. *)
Fixpoint join (ls : list string) : string :=
  match ls with
  | [] => EmptyString
  | [l] => l
  | l :: ls' => l +:+ LF +:+ join ls'
  end.

(** The characters [encodeURIComponent] leaves alone:
    [A-Z a-z 0-9 - _ . ! ~ * ' ( )]. *)
Definition unreserved (c : ascii) : bool :=
  let n := nat_of_ascii c in
  ((65 <=? n) && (n <=? 90)) || ((97 <=? n) && (n <=? 122))
  || ((48 <=? n) && (n <=? 57))
  || existsb (Nat.eqb n) [45; 95; 46; 33; 126; 42; 39; 40; 41].

Definition hexDigit (n : nat) : ascii :=
  ascii_of_nat (if n <? 10 then 48 + n else 55 + n).

(** [encodeURIComponent(s)]: every other character becomes [%XX].  The
    built-in throws [URIError] on a string that holds a lone surrogate; a
    string here is a sequence of one-byte characters and holds none, so the
    function is total and every URL of the model is one the built-in
    accepts. *)
Fixpoint encodeURIComponent (s : string) : string :=
  match s with
  | EmptyString => EmptyString
  | String c s' =>
      if unreserved c then String c (encodeURIComponent s')
      else let n := nat_of_ascii c in
           String "%"%char (String (hexDigit (n / 16))
                         (String (hexDigit (n mod 16)) (encodeURIComponent s')))
  end.

(** A template literal prints a missing property as [undefined]. *)
Definition show (o : option string) : string := default "undefined" o.

End Js.

(* ===================================================================== *)
(** ** Data *)
(* ===================================================================== *)

(** What one successful fetch yields: [{ content, title }]. *)
Record pageData := PageData { content : string; title : string }.

(** The value [fetchPageContent] resolves to.  The Playwright loop falls off
    its end when [retries] is [0] and then yields [undefined]; both [null]
    and [undefined] are falsy. *)
Inductive fetched :=
| Snapshot (pd : pageData)
| JsNull
| JsUndefined.

Definition truthy (f : fetched) : bool :=
  match f with Snapshot _ => true | _ => false end.

(** One change object of the [diff] package: [{ value, added, removed }]. *)
Record change := Change { value : string; added : bool; removed : bool }.

(** The object [checkIfNewOrUpdated] resolves to.  A property the source
    leaves out is [None]; [error] is only ever tested for truthiness, so a
    missing [error] is [false]. *)
Record result := Result {
  updated : bool;
  isNew : bool;
  error : bool;
  resultTitle : option string;
  changes : option (list change) }.

(** Entries of the [updates] and [newUrls] arrays. *)
Record updateEntry := UpdateEntry {
  u_url : string;
  u_title : option string;
  u_changes : option (list change) }.

Record newEntry := NewEntry { n_url : string; n_title : option string }.

(** Exceptions: a file-system error carries a [code]. *)
Inductive jsError :=
| SystemError (code : string)
| TypeError
| SourceUnavailable.

Definition hasCode (e : jsError) (c : string) : bool :=
  match e with SystemError c' => String.eqb c' c | _ => false end.

(** Calls issued to the outside, in the order they are issued. *)
Inductive event :=
| EvMkdir (path : string)
| EvGet (url : string)
| EvRead (path : string)
| EvWrite (path data : string)
| EvPost (text : string).

(** The outcome of one URL in one run, as the data model names it. *)
Inductive Outcome :=
| New (t : option string)
| Updated (t : option string) (hunks : option (list change))
| Unchanged
| Error.

(* ===================================================================== *)
(** ** The world *)
(* ===================================================================== *)

(** [net] scripts, per URL, the results of the coming page loads ([None]: the
    load throws); a URL without script, or with its script used up, fails.
    [files] is the [contents] directory; [rfault] and [wfault] list the paths
    whose read, respectively write, throws, with the error code.  [sheet] is
    column A of the spreadsheet ([None]: it cannot be read).  [updates],
    [newUrls] and [errors] are the three arrays of [checkForUpdates], which
    its tasks share. *)
Record world := World {
  net : gmap string (list (option pageData));
  files : gmap string string;
  rfault : gmap string string;
  wfault : gmap string string;
  sheet : option (list string);
  updates : list updateEntry;
  newUrls : list newEntry;
  errors : list string;
  trace : list event }.

Definition setNet (n : gmap string (list (option pageData))) (w : world) : world :=
  World n (files w) (rfault w) (wfault w) (sheet w)
        (updates w) (newUrls w) (errors w) (trace w).

Definition setFiles (f : gmap string string) (w : world) : world :=
  World (net w) f (rfault w) (wfault w) (sheet w)
        (updates w) (newUrls w) (errors w) (trace w).

Definition setUpdates (l : list updateEntry) (w : world) : world :=
  World (net w) (files w) (rfault w) (wfault w) (sheet w)
        l (newUrls w) (errors w) (trace w).

Definition setNewUrls (l : list newEntry) (w : world) : world :=
  World (net w) (files w) (rfault w) (wfault w) (sheet w)
        (updates w) l (errors w) (trace w).

Definition setErrors (l : list string) (w : world) : world :=
  World (net w) (files w) (rfault w) (wfault w) (sheet w)
        (updates w) (newUrls w) l (trace w).

Definition emit (e : event) (w : world) : world :=
  World (net w) (files w) (rfault w) (wfault w) (sheet w)
        (updates w) (newUrls w) (errors w) (trace w ++ [e]).

(* ===================================================================== *)
(** ** Computations *)
(* ===================================================================== *)

Inductive completion (A : Type) :=
| Ret (a : A)
| Throw (e : jsError).

Arguments Ret {A} a.
Arguments Throw {A} e.

Definition M (A : Type) : Type := world -> completion A * world.

Definition ret {A} (a : A) : M A := fun w => (Ret a, w).

Definition throw {A} (e : jsError) : M A := fun w => (Throw e, w).

Definition bind {A B} (m : M A) (k : A -> M B) : M B :=
  fun w => match m w with
           | (Ret a, w') => k a w'
           | (Throw e, w') => (Throw e, w')
           end.

(** [try { m } catch (error) { h error }]. *)
Definition tryCatch {A} (m : M A) (h : jsError -> M A) : M A :=
  fun w => match m w with
           | (Ret a, w') => (Ret a, w')
           | (Throw e, w') => h e w'
           end.

(** A promise run until it settles: it never throws into its observer. *)
Definition settle {A} (m : M A) : M (completion A) :=
  fun w => match m w with (c, w') => (Ret c, w') end.

Notation "'await' x <~ m ;; k" := (bind m (fun x => k))
  (at level 10, x name, m at level 99, k at level 200).
Notation "'exec' m ;; k" := (bind m (fun _ => k))
  (at level 10, m at level 99, k at level 200).

(** *** The outside *)

(** One page load ([axios.get] and [cheerio.load], or [page.goto] with
    [page.evaluate] and [page.title]), inside its [try]: [None] when any of
    it throws. *)
Definition pageLoad (url : string) : M (option pageData) :=
  fun w =>
    let w' := emit (EvGet url) w in
    match net w !! url with
    | Some (r :: rest) => (Ret r, setNet (<[url := rest]> (net w)) w')
    | _ => (Ret None, w')
    end.

(** What [fs.readFile(path, 'utf-8')] finds. *)
Definition stat (w : world) (path : string) : completion string :=
  match rfault w !! path with
  | Some c => Throw (SystemError c)
  | None => match files w !! path with
            | Some s => Ret s
            | None => Throw (SystemError "ENOENT")
            end
  end.

Definition readFile (path : string) : M string :=
  fun w => (stat w path, emit (EvRead path) w).

(** [fs.writeFile(path, data, 'utf-8')].  A write that throws is taken to
    throw when the file is opened and leaves it as it was; [fs.writeFile]
    truncates on open, so an error past the open (a full disk) leaves the
    file empty or cut short, which the model does not show. *)
Definition writeFile (path data : string) : M unit :=
  fun w =>
    let w' := emit (EvWrite path data) w in
    match wfault w !! path with
    | Some c => (Throw (SystemError c), w')
    | None => (Ret tt, setFiles (<[path := data]> (files w)) w')
    end.

(** The webhook call of the three senders ([axios.post], or [fetch] with the
    text as JSON).  The webhook is a collaborator and accepts every call. *)
Definition post (text : string) : M unit :=
  fun w => (Ret tt, emit (EvPost text) w).

(** [errors.push], [newUrls.push] and [updates.push]. *)
Definition pushError (url : string) : M unit :=
  fun w => (Ret tt, setErrors (errors w ++ [url]) w).

Definition pushNewUrl (e : newEntry) : M unit :=
  fun w => (Ret tt, setNewUrls (newUrls w ++ [e]) w).

Definition pushUpdate (e : updateEntry) : M unit :=
  fun w => (Ret tt, setUpdates (updates w ++ [e]) w).

(* ===================================================================== *)
(** ** Functions of both revisions *)
(* ===================================================================== *)

Definition contentDir : string := "contents".

(** [fs.mkdir(contentDir, { recursive: true })] with its error swallowed. *)
Definition ensureContentDirExists : M unit :=
  fun w => (Ret tt, emit (EvMkdir contentDir) w).

(** [getUrlsFromSheet]: the spreadsheet is a collaborator; it yields its
    column or throws. *)
Definition getUrlsFromSheet : M (list string) :=
  fun w => match sheet w with
           | Some urls => (Ret urls, w)
           | None => (Throw SourceUnavailable, w)
           end.

Definition lastContentFile (url : string) : string :=
  contentDir +:+ "/" +:+ Js.encodeURIComponent url +:+ ".txt".

(** [change => change.added || change.removed]. *)
Definition isEdit (c : change) : bool := added c || removed c.

(** [trimString(str, maxLength = 100)]. *)
Definition trimString (str : string) (maxLength : nat) : string :=
  if maxLength <? String.length str
  then Js.substring0 str maxLength +:+ "..."
  else str.

Definition defaultMaxLength : nat := 100.

Section Detector.

(** [diffLines] of the [diff] package, and the fetcher of the revision. *)
Variable diffLines : string -> string -> list change.
Variable fetchPage : string -> M fetched.

(** [checkIfNewOrUpdated(url)], lines 58-84 and 221-247. *)
Definition checkIfNewOrUpdatedWith (url : string) : M result :=
  await pageData <~ fetchPage url ;;
  match pageData with
  | JsNull | JsUndefined => ret (Result false false true None None)
  | Snapshot pd =>
      let newContent := content pd in
      let newTitle := title pd in
      let file := lastContentFile url in
      await last <~ tryCatch
                (await c <~ readFile file ;; ret (c, false))
                (fun e => if hasCode e "ENOENT"
                          then ret (EmptyString, true)
                          else throw e) ;;
      let lastContent := fst last in
      let isNew := snd last in
      if negb (String.eqb newContent lastContent) then
        exec writeFile file newContent ;;
        let changes := filter (fun c => isEdit c = true)
                              (diffLines lastContent newContent) in
        ret (Result true isNew false (Some newTitle) (Some changes))
      else ret (Result false isNew false None None)
  end.

(** The callback of [urls.map], lines 138-149 and 318-332. *)
Definition updatePromiseWith (url : string) : M unit :=
  await result <~ checkIfNewOrUpdatedWith url ;;
  if error result then
    pushError url
  else if isNew result then
    pushNewUrl (NewEntry url (resultTitle result))
  else if updated result then
    pushUpdate (UpdateEntry url (resultTitle result) (changes result))
  else ret tt.

End Detector.

(** The branch the callback takes, named as the data model names it. *)
Definition outcomeOf (r : result) : Outcome :=
  if error r then Error
  else if isNew r then New (resultTitle r)
  else if updated r then Updated (resultTitle r) (changes r)
  else Unchanged.

(* ===================================================================== *)
(** ** Notifications *)
(* ===================================================================== *)

(** One line of the fenced block: [+ value] or [- value], the value cut by
    [trimString] with its default length. *)
Definition changeLine (c : change) : string :=
  if added c then "+ " +:+ trimString (value c) defaultMaxLength
  else if removed c then "- " +:+ trimString (value c) defaultMaxLength
  else "".

(** The text of one updated page; [changes.map] on a missing [changes]
    throws. *)
Definition updateBlock (e : updateEntry) : completion string :=
  match u_changes e with
  | None => Throw TypeError
  | Some cs =>
      Ret ("**" +:+ u_url e +:+ " のページが更新されました！**" +:+ Js.LF
           +:+ "**タイトル:** " +:+ Js.show (u_title e) +:+ Js.LF
           +:+ Js.LF
           +:+ "**変更点:**" +:+ Js.LF
           +:+ "```diff" +:+ Js.LF
           +:+ Js.join (map changeLine cs) +:+ Js.LF
           +:+ "```" +:+ Js.LF +:+ Js.LF)
  end.

Fixpoint traverse {A B} (f : A -> completion B) (l : list A)
  : completion (list B) :=
  match l with
  | [] => Ret []
  | a :: l' =>
      match f a with
      | Throw e => Throw e
      | Ret b => match traverse f l' with
                 | Throw e => Throw e
                 | Ret bs => Ret (b :: bs)
                 end
      end
  end.

(** [sendUpdateNotification(updates)], lines 90-107 and 253-274. *)
Definition sendUpdateNotification (us : list updateEntry) : M unit :=
  if length us =? 0 then ret tt
  else match traverse updateBlock us with
       | Throw e => throw e
       | Ret blocks =>
           post ("以下のページが更新されました:" +:+ Js.LF +:+ Js.LF
                 +:+ Js.join blocks)
       end.

(** [sendNewUrlNotification(newUrls)], lines 109-118 and 276-289. *)
Definition sendNewUrlNotification (ns : list newEntry) : M unit :=
  if length ns =? 0 then ret tt
  else post ("以下の新しいURLが追加されました:" +:+ Js.LF +:+ Js.LF
             +:+ Js.join (map (fun e => "- [" +:+ Js.show (n_title e) +:+ "]("
                                        +:+ n_url e +:+ ")" +:+ Js.LF) ns)).

(** [sendErrorNotification(errors)], lines 120-129 and 291-304. *)
Definition sendErrorNotification (es : list string) : M unit :=
  if length es =? 0 then ret tt
  else post ("以下のURLでエラーが発生しました:" +:+ Js.LF +:+ Js.LF
             +:+ Js.join (map (fun url => "- " +:+ url +:+ Js.LF) es)).

(* ===================================================================== *)
(** ** Joining the tasks *)
(* ===================================================================== *)

(** The tasks of one run touch the world only at their own awaits.  The
    model runs them to completion one after the other, in the order of the
    list: one of the schedules the event loop admits.  In another schedule
    the entries of an array come in another order, and two rows with the
    same URL may both see the baseline as it was before either write. *)
Fixpoint settleAll (tasks : list (M unit)) : M (list (completion unit)) :=
  match tasks with
  | [] => ret []
  | t :: ts =>
      await c <~ settle t ;;
      await cs <~ settleAll ts ;;
      ret (c :: cs)
  end.

Fixpoint firstRejection (cs : list (completion unit)) : option jsError :=
  match cs with
  | [] => None
  | Throw e :: _ => Some e
  | Ret _ :: cs' => firstRejection cs'
  end.

(** [await Promise.all(promises)] rejects when one of them does. *)
Definition promiseAll (tasks : list (M unit)) : M unit :=
  await cs <~ settleAll tasks ;;
  match firstRejection cs with
  | Some e => throw e
  | None => ret tt
  end.

(** [await Promise.allSettled(promises)] never rejects. *)
Definition promiseAllSettled (tasks : list (M unit)) : M unit :=
  await cs <~ settleAll tasks ;;
  ret tt.

(** [const updates = []; const newUrls = []; const errors = [];] *)
Definition newArrays : M unit :=
  fun w => (Ret tt, setUpdates [] (setNewUrls [] (setErrors [] w))).

(** The three sends that end [checkForUpdates]. *)
Definition sendAll : M unit :=
  fun w =>
    (exec sendUpdateNotification (updates w) ;;
     exec sendNewUrlNotification (newUrls w) ;;
     sendErrorNotification (errors w)) w.

(* ===================================================================== *)
(** ** The axios and cheerio revision (lines 1-162) *)
(* ===================================================================== *)

Module Cheerio.

(** [fetchPageContent(url, retries = 3)], lines 41-56. *)
Fixpoint fetchPageContent (url : string) (retries : nat) : M fetched :=
  await r <~ pageLoad url ;;
  match r with
  | Some pd => ret (Snapshot pd)
  | None =>
      match retries with
      | S n => fetchPageContent url n
      | O => ret JsNull
      end
  end.

Definition defaultRetries : nat := 3.

Definition checkIfNewOrUpdated (diffLines : string -> string -> list change)
  : string -> M result :=
  checkIfNewOrUpdatedWith diffLines
    (fun url => fetchPageContent url defaultRetries).

Definition updatePromise (diffLines : string -> string -> list change)
  : string -> M unit :=
  updatePromiseWith diffLines
    (fun url => fetchPageContent url defaultRetries).

(** [checkForUpdates()], lines 131-155. *)
Definition checkForUpdates (diffLines : string -> string -> list change)
  : M unit :=
  exec ensureContentDirExists ;;
  await urls <~ getUrlsFromSheet ;;
  exec newArrays ;;
  exec promiseAll (map (updatePromise diffLines) urls) ;;
  sendAll.

End Cheerio.

(* ===================================================================== *)
(** ** The Playwright revision (lines 163-347) *)
(* ===================================================================== *)

Module Playwright.

(** The [for] loop of [fetchPageContent], lines 206-218.  [remaining] is
    [retries - attempt], the iterations the loop condition still admits;
    falling off the loop yields [undefined]. *)
Fixpoint attemptLoop (url : string) (retries attempt remaining : nat)
  : M fetched :=
  match remaining with
  | O => ret JsUndefined
  | S remaining' =>
      await r <~ pageLoad url ;;
      match r with
      | Some pd => ret (Snapshot pd)
      | None =>
          if attempt =? retries - 1 then ret JsNull
          else attemptLoop url retries (S attempt) remaining'
      end
  end.

(** [fetchPageContent(url, page, retries = 5)], lines 205-219. *)
Definition fetchPageContent (url : string) (retries : nat) : M fetched :=
  attemptLoop url retries 0 retries.

Definition defaultRetries : nat := 5.

Definition checkIfNewOrUpdated (diffLines : string -> string -> list change)
  : string -> M result :=
  checkIfNewOrUpdatedWith diffLines
    (fun url => fetchPageContent url defaultRetries).

Definition updatePromise (diffLines : string -> string -> list change)
  : string -> M unit :=
  updatePromiseWith diffLines
    (fun url => fetchPageContent url defaultRetries).

(** [checkForUpdates()], lines 306-340.  Launching and closing the browser
    and its pages (lines 313-316, 319, 321, 335) is left to the
    collaborator and taken to succeed: a rejection of [chromium.launch],
    [newContext] or [browser.close] is not modelled. *)
Definition checkForUpdates (diffLines : string -> string -> list change)
  : M unit :=
  exec ensureContentDirExists ;;
  await urls <~ getUrlsFromSheet ;;
  exec newArrays ;;
  exec promiseAllSettled (map (updatePromise diffLines) urls) ;;
  sendAll.

End Playwright.

(* ===================================================================== *)
(** ** The two revisions side by side *)
(* ===================================================================== *)

Inductive revision := RevCheerio | RevPlaywright.

(** The fetcher with a retry bound [maxRetries]: the first revision counts
    retries, the second counts attempts. *)
Definition fetch (rev : revision) (url : string) (maxRetries : nat) : M fetched :=
  match rev with
  | RevCheerio => Cheerio.fetchPageContent url maxRetries
  | RevPlaywright => Playwright.fetchPageContent url (maxRetries + 1)
  end.

(** The retry bound [checkIfNewOrUpdated] runs with. *)
Definition retryBound (rev : revision) : nat :=
  match rev with
  | RevCheerio => Cheerio.defaultRetries
  | RevPlaywright => Playwright.defaultRetries - 1
  end.

Definition detect (rev : revision) (diffLines : string -> string -> list change)
  : string -> M result :=
  match rev with
  | RevCheerio => Cheerio.checkIfNewOrUpdated diffLines
  | RevPlaywright => Playwright.checkIfNewOrUpdated diffLines
  end.

Definition task (rev : revision) (diffLines : string -> string -> list change)
  : string -> M unit :=
  match rev with
  | RevCheerio => Cheerio.updatePromise diffLines
  | RevPlaywright => Playwright.updatePromise diffLines
  end.

Definition run (rev : revision) (diffLines : string -> string -> list change)
  : M unit :=
  match rev with
  | RevCheerio => Cheerio.checkForUpdates diffLines
  | RevPlaywright => Playwright.checkForUpdates diffLines
  end.

(** The world after [n] page loads of [url]. *)
Fixpoint afterLoads (url : string) (n : nat) (w : world) : world :=
  match n with
  | O => w
  | S n' => afterLoads url n' (snd (pageLoad url w))
  end.

(** The script of [url] and the result of its [i]-th coming load. *)
Definition script (w : world) (url : string) : list (option pageData) :=
  default [] (net w !! url).

Definition loadAt (w : world) (url : string) (i : nat) : option pageData :=
  default None (script w url !! i).

(* ===================================================================== *)
(** ** The line diff *)
(* ===================================================================== *)

(** [diffLines] comes from the npm package [diff], whose code is not part
    of the repository.  The pipeline above takes it as an argument; this
    module models it from the specification's words, for the statements
    that are about the diff itself. *)
Module LineDiff.

Inductive op := Keep | Add | Del.

Definition op_eqb (a b : op) : bool :=
  match a, b with
  | Keep, Keep | Add, Add | Del, Del => true
  | _, _ => false
  end.

Definition edit : Type := op * string.

(** The lines of a script whose operation satisfies [p], in order. *)
Fixpoint project (p : op -> bool) (es : list edit) : list string :=
  match es with
  | [] => []
  | (o, l) :: es' => if p o then l :: project p es' else project p es'
  end.

Definition isKeep (o : op) : bool := op_eqb o Keep.
Definition isAdd (o : op) : bool := op_eqb o Add.
Definition isDel (o : op) : bool := op_eqb o Del.

(** The common lines of a script, its added and its removed ones, and the
    two texts it relates. *)
Definition kept (es : list edit) : list string := project isKeep es.
Definition addedOf (es : list edit) : list string := project isAdd es.
Definition removedOf (es : list edit) : list string := project isDel es.
Definition oldSide (es : list edit) : list string :=
  project (fun o => negb (isAdd o)) es.
Definition newSide (es : list edit) : list string :=
  project (fun o => negb (isDel o)) es.

Definition keeps (es : list edit) : nat := length (kept es).

(** Modelled from the spec: the lines of a snapshot.  The empty text has
    no line (so that an empty old text yields all lines as added); any
    other text is cut at its line feeds. *)
Definition tokenize (s : string) : list string :=
  if String.eqb s EmptyString then [] else Js.split s.

(** Modelled from the spec: the line-oriented longest-common-subsequence
    diff as an edit script in old-to-new order.  Equal heads are kept;
    otherwise the alternative that keeps more lines is taken, a removal
    first when both keep as many. *)
Fixpoint editScript (xs ys : list string) {struct xs} : list edit :=
  match xs with
  | [] => map (pair Add) ys
  | x :: xs' =>
      (fix against (ys : list string) : list edit :=
         match ys with
         | [] => map (pair Del) (x :: xs')
         | y :: ys' =>
             if String.eqb x y then (Keep, x) :: editScript xs' ys'
             else
               let del := (Del, x) :: editScript xs' (y :: ys') in
               let add := (Add, y) :: against ys' in
               if keeps add <=? keeps del then del else add
         end) ys
  end.

(** Modelled from the spec: a hunk is one contiguous run of lines with the
    same operation. *)
Fixpoint hunks (es : list edit) : list (op * list string) :=
  match es with
  | [] => []
  | (o, l) :: es' =>
      match hunks es' with
      | (o', ls) :: hs =>
          if op_eqb o o' then (o, l :: ls) :: hs
          else (o, [l]) :: (o', ls) :: hs
      | [] => [(o, [l])]
      end
  end.

Definition toChange (h : op * list string) : change :=
  Change (Js.join (snd h)) (isAdd (fst h)) (isDel (fst h)).

(** The lines of the hunks whose operation satisfies [p], in order. *)
Fixpoint hunkLines (p : op -> bool) (hs : list (op * list string))
  : list string :=
  match hs with
  | [] => []
  | (o, ls) :: hs' => if p o then ls ++ hunkLines p hs' else hunkLines p hs'
  end.

(** Modelled from the spec: [diffLines(old, new)] of the [diff] package,
    before the caller filters the unchanged hunks out. *)
Definition diffLines (old new : string) : list change :=
  map toChange (hunks (editScript (tokenize old) (tokenize new))).

End LineDiff.

(** The DiffEngine of the specification: the library call followed by the
    filter of [checkIfNewOrUpdated] (lines 80 and 243). *)
Definition diffEngine (old new : string) : list change :=
  filter (fun c => isEdit c = true) (LineDiff.diffLines old new).

(** The lines of the hunks of one kind, in order. *)
Definition linesOf (kind : change -> bool) (hs : list change) : list string :=
  concat (map (fun c => Js.split (value c)) (filter (fun c => kind c = true) hs)).

(** [Merge l r m]: [m] interleaves [l] and [r], keeping the order of each. *)
Inductive Merge {A : Type} : list A -> list A -> list A -> Prop :=
| Merge_nil : Merge [] [] []
| Merge_left a l r m : Merge l r m -> Merge (a :: l) r (a :: m)
| Merge_right a l r m : Merge l r m -> Merge l (a :: r) (a :: m).

(** A longest common subsequence of two lists. *)
Definition LongestCommon {A : Type} (c xs ys : list A) : Prop :=
  sublist c xs /\ sublist c ys /\
  forall c', sublist c' xs -> sublist c' ys -> length c' <= length c.

(** [Attempts w url bound f n]: the fetcher, started in [w] with retry bound
    [bound], made [n] loads and resolved to [f].  The loads before the last
    failed; the last one succeeded with the snapshot returned, or it failed
    too and was the last the bound allows. *)
Definition Attempts (w : world) (url : string) (bound : nat)
  (f : fetched) (n : nat) : Prop :=
  1 <= n <= bound + 1 /\
  (forall i, i < n - 1 -> loadAt w url i = None) /\
  match f with
  | Snapshot pd => loadAt w url (n - 1) = Some pd
  | JsNull => n = bound + 1 /\ loadAt w url (n - 1) = None
  | JsUndefined => False
  end.

(** The three arrays of the run report. *)
Definition report (w : world) : list updateEntry * list newEntry * list string :=
  (updates w, newUrls w, errors w).

(** Two worlds with the same disk, spreadsheet and report arrays. *)
Definition sameStore (w w' : world) : Prop :=
  files w' = files w /\ rfault w' = rfault w /\ wfault w' = wfault w /\
  sheet w' = sheet w /\ report w' = report w.

(** The world after the baseline of a URL was read, and after it was
    written. *)
Definition afterRead (file : string) (w : world) : world :=
  emit (EvRead file) w.

Definition afterWrite (file data : string) (w : world) : world :=
  setFiles (<[file := data]> (files w)) (emit (EvWrite file data) w).

(** What the callback of [urls.map] does with the result of its URL. *)
Definition collect (url : string) (r : result) : M unit :=
  if error r then pushError url
  else if isNew r then pushNewUrl (NewEntry url (resultTitle r))
  else if updated r then pushUpdate (UpdateEntry url (resultTitle r) (changes r))
  else ret tt.

(** *** Sample worlds *)

Definition demoUrl : string := "https://example.com/news".

Definition demoFile : string := lastContentFile demoUrl.

(** A world that serves [pages] for [demoUrl] over the disk [disk]. *)
Definition serving (pages : list (option pageData))
  (disk : gmap string string) : world :=
  World {[ demoUrl := pages ]} disk ∅ ∅ (Some [demoUrl]) [] [] [] [].

(** A page whose body has no text, never seen before. *)
Definition blankPage : world :=
  serving [Some (PageData EmptyString "T"); Some (PageData EmptyString "T")] ∅.

(** A page that reads [new] while the baseline holds [old]. *)
Definition stalePage : world :=
  serving [Some (PageData "new" "T"); Some (PageData "new" "T")]
          {[ demoFile := "old" ]}.

(** A page that reads [Hello], as the baseline does. *)
Definition samePage : world :=
  serving [None; Some (PageData "Hello" "T")] {[ demoFile := "Hello" ]}.

(** A page never seen before that reads [Hello], twice in a row. *)
Definition freshPage : world :=
  serving [Some (PageData "Hello" "T"); None; Some (PageData "Hello" "T2")] ∅.

(** A page that never loads. *)
Definition deadPage : world := serving [] ∅.

(** A page whose baseline cannot be read. *)
Definition lockedPage : world :=
  World {[ demoUrl := [Some (PageData "Hello" "T")] ]} ∅
        {[ demoFile := "EACCES" ]} ∅ (Some [demoUrl]) [] [] [] [].

Definition otherUrl : string := "https://example.com/blog".

Definition thirdUrl : string := "https://example.com/docs".

(** Two URLs: the baseline of the first cannot be read, the second is seen
    for the first time. *)
Definition mixedRun : world :=
  World {[ demoUrl := [Some (PageData "Hello" "T")];
           otherUrl := [Some (PageData "World" "B")] ]}
        ∅ {[ demoFile := "EACCES" ]} ∅
        (Some [demoUrl; otherUrl]) [] [] [] [].

(** Three URLs: the first never loads, the second is seen for the first
    time, the third reads what its baseline holds. *)
Definition threeUrls : world :=
  World {[ otherUrl := [None; Some (PageData "World" "B")];
           thirdUrl := [Some (PageData "Docs" "D")] ]}
        {[ lastContentFile thirdUrl := "Docs" ]} ∅ ∅
        (Some [demoUrl; otherUrl; thirdUrl]) [] [] [] [].

(** Every entry of [updates] carries its hunks. *)
Definition updatesComplete (w : world) : Prop :=
  Forall (fun e => is_Some (u_changes e)) (updates w).

(** The texts posted to the webhook, in order. *)
Definition posted (w : world) : list string :=
  omap (fun e => match e with EvPost t => Some t | _ => None end) (trace w).

(** *** Vocabulary of the further properties *)

(** The world in which the tasks of a run start: the directory was made and
    the three arrays are fresh. *)
Definition started (w : world) : world :=
  setUpdates [] (setNewUrls [] (setErrors [] (emit (EvMkdir contentDir) w))).

(** A disk on which no read and no write throws (a missing file apart). *)
Definition noFaults (w : world) : Prop := rfault w = ∅ /\ wfault w = ∅.

(** How many entries the three arrays hold, and the URLs they name. *)
Definition filedCount (w : world) : nat :=
  length (updates w) + length (newUrls w) + length (errors w).

Definition filedUrls (w : world) : list string :=
  map u_url (updates w) ++ map n_url (newUrls w) ++ errors w.

(** An entry of [updates] with its title and with hunks that are all added
    or removed. *)
Definition entryComplete (e : updateEntry) : Prop :=
  is_Some (u_title e) /\
  exists hunks, u_changes e = Some hunks /\
                Forall (fun c => isEdit c = true) hunks.

(** [1] for an array with an element, [0] for an empty one. *)
Definition nonEmpty {A : Type} (l : list A) : nat :=
  if length l =? 0 then 0 else 1.

(** A character that neither separates path segments nor ends a line. *)
Definition pathSafe (c : ascii) : Prop := c <> "/"%char /\ c <> Js.lf.

(** [touchesOnly url w w']: from [w] to [w'] the faults and the spreadsheet
    are the same, every file but the baseline of [url] is the same, and so
    are the coming responses of every other URL. *)
Definition touchesOnly (url : string) (w w' : world) : Prop :=
  rfault w' = rfault w /\ wfault w' = wfault w /\ sheet w' = sheet w /\
  (forall path, path <> lastContentFile url -> files w' !! path = files w !! path)
  /\ (forall u, u <> url -> net w' !! u = net w !! u).

(** A page that reads [new] while the baseline holds [old], on a disk that
    refuses the write. *)
Definition readOnlyPage : world :=
  World {[ demoUrl := [Some (PageData "new" "T")] ]}
        {[ demoFile := "old" ]} ∅ {[ demoFile := "EROFS" ]}
        (Some [demoUrl]) [] [] [] [].

(** A world whose spreadsheet cannot be read, and one whose spreadsheet
    lists no URL; both carry entries of an earlier run in their arrays. *)
Definition noSheet : world :=
  World {[ demoUrl := [Some (PageData "Hello" "T")] ]} ∅ ∅ ∅ None
        [] [] [otherUrl] [].

Definition emptySheet : world :=
  World {[ demoUrl := [Some (PageData "Hello" "T")] ]} ∅ ∅ ∅ (Some [])
        [] [] [otherUrl] [].


(** [occursIn needle hay]: [needle] is a stretch of [hay]. *)
Definition occursIn (needle hay : string) : Prop :=
  exists pre post, hay = pre +:+ needle +:+ post.

(** How often a URL occurs in a list. *)
Definition occurrences (u : string) (l : list string) : nat :=
  count_occ string_dec l u.

(** A line holds no line feed. *)
Fixpoint noLF (s : string) : Prop :=
  match s with
  | EmptyString => True
  | String c s' => c <> Js.lf /\ noLF s'
  end.

(* ===================================================================== *)
(** * Properties *)
(* ===================================================================== *)

(** ** Strings *)

Lemma length_append (a b : string) :
  String.length (a +:+ b) = String.length a + String.length b.
Proof. induction a as [|c a IH]; simpl; [reflexivity | now rewrite IH]. Qed.

Lemma substring0_length (s : string) (n : nat) :
  n <= String.length s -> String.length (Js.substring0 s n) = n.
Proof.
  unfold Js.substring0. revert n.
  induction s as [|c s IH]; intros [|n] Hn; simpl in *; try reflexivity; try lia.
  rewrite IH; [reflexivity | lia].
Qed.

Lemma substring0_prefix (s : string) (n : nat) :
  exists rest, s = Js.substring0 s n +:+ rest.
Proof.
  unfold Js.substring0. revert n.
  induction s as [|c s IH]; intros [|n]; simpl.
  - now exists EmptyString.
  - now exists EmptyString.
  - now exists (String c s).
  - destruct (IH n) as [rest Hrest]. exists rest.
    rewrite Hrest at 1. reflexivity.
Qed.

Lemma substring0_all (s : string) (n : nat) :
  String.length s <= n -> Js.substring0 s n = s.
Proof.
  unfold Js.substring0. revert n.
  induction s as [|c s IH]; intros [|n] Hn; simpl in *; try reflexivity; try lia.
  rewrite IH; [reflexivity | lia].
Qed.

Lemma split_not_nil (s : string) : Js.split s <> [].
Proof.
  induction s as [|c s IH]; simpl; [discriminate |].
  destruct (Ascii.eqb c Js.lf); [discriminate |].
  destruct (Js.split s); [contradiction | discriminate].
Qed.

Lemma join_split (s : string) : Js.join (Js.split s) = s.
Proof.
  induction s as [|c s IH]; simpl; [reflexivity |].
  destruct (Ascii.eqb_spec c Js.lf) as [-> | Hc].
  - pose proof (split_not_nil s) as Hne.
    destruct (Js.split s) as [|l ls] eqn:E; [contradiction |].
    change (Js.join (EmptyString :: l :: ls))
      with (EmptyString +:+ Js.LF +:+ Js.join (l :: ls)).
    rewrite IH. reflexivity.
  - pose proof (split_not_nil s) as Hne.
    destruct (Js.split s) as [|l ls] eqn:E; [contradiction |].
    destruct ls as [|l' ls].
    + simpl in *. now rewrite IH.
    + change (Js.join (String c l :: l' :: ls))
        with (String c (l +:+ Js.LF +:+ Js.join (l' :: ls))).
      change (Js.join (l :: l' :: ls))
        with (l +:+ Js.LF +:+ Js.join (l' :: ls)) in IH.
      now rewrite IH.
Qed.

Lemma split_noLF (s : string) : Forall noLF (Js.split s).
Proof.
  induction s as [|c s IH]; simpl.
  - repeat constructor.
  - destruct (Ascii.eqb_spec c Js.lf) as [-> | Hc].
    + constructor; [exact I | exact IH].
    + destruct (Js.split s) as [|l ls]; [repeat constructor; assumption |].
      inversion IH; subst. constructor; [split; assumption | assumption].
Qed.

Lemma split_line_app (l rest : string) :
  noLF l ->
  Js.split (l +:+ Js.LF +:+ rest) = l :: Js.split rest.
Proof.
  induction l as [|c l IH]; intros Hl; simpl.
  - reflexivity.
  - destruct Hl as [Hc Hl].
    destruct (Ascii.eqb_spec c Js.lf) as [-> | _]; [contradiction |].
    simpl in IH. rewrite (IH Hl). reflexivity.
Qed.

Lemma split_line (l : string) : noLF l -> Js.split l = [l].
Proof.
  induction l as [|c l IH]; intros Hl; simpl; [reflexivity |].
  destruct Hl as [Hc Hl].
  destruct (Ascii.eqb_spec c Js.lf) as [-> | _]; [contradiction |].
  now rewrite (IH Hl).
Qed.

Lemma split_join (ls : list string) :
  ls <> [] -> Forall noLF ls -> Js.split (Js.join ls) = ls.
Proof.
  induction ls as [|l ls IH]; intros Hne Hall; [contradiction |].
  inversion Hall as [|? ? Hl Hls]; subst.
  destruct ls as [|l' ls].
  - simpl. now apply split_line.
  - change (Js.join (l :: l' :: ls)) with (l +:+ Js.LF +:+ Js.join (l' :: ls)).
    rewrite split_line_app by assumption.
    rewrite IH; [reflexivity | discriminate | assumption].
Qed.

(** ** Page loads *)

Lemma pageLoad_eq (url : string) (w : world) :
  pageLoad url w = (Ret (loadAt w url 0), afterLoads url 1 w).
Proof.
  unfold loadAt, script. cbn [afterLoads]. unfold pageLoad.
  destruct (net w !! url) as [[|r rest]|]; reflexivity.
Qed.

Lemma loadAt_next (url : string) (w : world) (i : nat) :
  loadAt (afterLoads url 1 w) url i = loadAt w url (S i).
Proof.
  unfold loadAt, script. cbn [afterLoads]. unfold pageLoad.
  destruct (net w !! url) as [[|r rest]|] eqn:E; simpl; rewrite ?E; simpl.
  - reflexivity.
  - rewrite lookup_insert_eq. reflexivity.
  - reflexivity.
Qed.

Lemma afterLoads_S (url : string) (n : nat) (w : world) :
  afterLoads url (S n) w = afterLoads url n (afterLoads url 1 w).
Proof. reflexivity. Qed.

Lemma afterLoads_sameStore (url : string) (n : nat) (w : world) :
  sameStore w (afterLoads url n w).
Proof.
  revert w. induction n as [|n IH]; intros w.
  - repeat split.
  - rewrite afterLoads_S.
    destruct (IH (afterLoads url 1 w)) as (H1 & H2 & H3 & H4 & H5).
    unfold sameStore. rewrite H1, H2, H3, H4, H5.
    unfold report. simpl. unfold pageLoad.
    destruct (net w !! url) as [[|r rest]|]; repeat split.
Qed.

Lemma afterLoads_trace (url : string) (n : nat) (w : world) :
  trace (afterLoads url n w) = trace w ++ repeat (EvGet url) n.
Proof.
  revert w. induction n as [|n IH]; intros w.
  - simpl. now rewrite app_nil_r.
  - rewrite afterLoads_S, IH. simpl. unfold pageLoad.
    destruct (net w !! url) as [[|r rest]|]; simpl;
      now rewrite <- app_assoc.
Qed.

Lemma stat_sameStore (w w' : world) (path : string) :
  sameStore w w' -> stat w' path = stat w path.
Proof.
  intros (H1 & H2 & _). unfold stat. now rewrite H1, H2.
Qed.

Lemma Attempts_first (w : world) (url : string) (bound : nat) (pd : pageData) :
  loadAt w url 0 = Some pd -> Attempts w url bound (Snapshot pd) 1.
Proof.
  intros H. unfold Attempts. split; [lia |].
  split; [intros i Hi; lia | exact H].
Qed.

Lemma Attempts_last (w : world) (url : string) :
  loadAt w url 0 = None -> Attempts w url 0 JsNull 1.
Proof.
  intros H. unfold Attempts. split; [lia |].
  split; [intros i Hi; lia | split; [lia | exact H]].
Qed.

Lemma Attempts_next (w : world) (url : string) (bound : nat)
  (f : fetched) (n : nat) :
  loadAt w url 0 = None ->
  Attempts (afterLoads url 1 w) url bound f n ->
  Attempts w url (S bound) f (S n).
Proof.
  intros H0 (Hn & Hfail & Hlast).
  assert (Hidx : loadAt w url (S n - 1) = loadAt (afterLoads url 1 w) url (n - 1)).
  { rewrite loadAt_next. f_equal. lia. }
  split; [lia |]. split.
  - intros [|i] Hi; [exact H0 |].
    rewrite <- loadAt_next. apply Hfail. lia.
  - destruct f as [pd | |]; [| | contradiction].
    + now rewrite Hidx.
    + destruct Hlast as [-> Hl]. split; [lia | now rewrite Hidx].
Qed.

Lemma cheerio_fetch (url : string) (retries : nat) (w : world) :
  exists f n,
    Cheerio.fetchPageContent url retries w = (Ret f, afterLoads url n w)
    /\ Attempts w url retries f n.
Proof.
  revert w. induction retries as [|r IH]; intros w.
  - simpl. unfold bind. rewrite pageLoad_eq.
    destruct (loadAt w url 0) as [pd|] eqn:E.
    + exists (Snapshot pd), 1. split; [reflexivity | now apply Attempts_first].
    + exists JsNull, 1. split; [reflexivity | now apply Attempts_last].
  - simpl. unfold bind. rewrite pageLoad_eq.
    destruct (loadAt w url 0) as [pd|] eqn:E.
    + exists (Snapshot pd), 1. split; [reflexivity | now apply Attempts_first].
    + destruct (IH (afterLoads url 1 w)) as (f & n & Hrun & Hatt).
      exists f, (S n). split.
      * rewrite afterLoads_S. exact Hrun.
      * now apply Attempts_next.
Qed.

Lemma playwright_loop (url : string) (retries attempt remaining : nat) (w : world) :
  attempt + S remaining = retries ->
  exists f n,
    Playwright.attemptLoop url retries attempt (S remaining) w
      = (Ret f, afterLoads url n w)
    /\ Attempts w url remaining f n.
Proof.
  revert attempt w. induction remaining as [|r IH]; intros attempt w Hsum.
  - simpl. unfold bind. rewrite pageLoad_eq.
    destruct (loadAt w url 0) as [pd|] eqn:E.
    + exists (Snapshot pd), 1. split; [reflexivity | now apply Attempts_first].
    + replace (attempt =? retries - 1) with true
        by (symmetry; apply Nat.eqb_eq; lia).
      exists JsNull, 1. split; [reflexivity | now apply Attempts_last].
  - cbn [Playwright.attemptLoop]. unfold bind at 1. rewrite pageLoad_eq.
    destruct (loadAt w url 0) as [pd|] eqn:E.
    + exists (Snapshot pd), 1. split; [reflexivity | now apply Attempts_first].
    + replace (attempt =? retries - 1) with false
        by (symmetry; apply Nat.eqb_neq; lia).
      destruct (IH (S attempt) (afterLoads url 1 w)) as (f & n & Hrun & Hatt);
        [lia |].
      exists f, (S n). split.
      * rewrite afterLoads_S. exact Hrun.
      * now apply Attempts_next.
Qed.

(** Both fetchers, under their common reading of the retry bound. *)
Lemma fetch_attempts (rev : revision) (url : string) (maxRetries : nat) (w : world) :
  exists f n,
    fetch rev url maxRetries w = (Ret f, afterLoads url n w)
    /\ Attempts w url maxRetries f n.
Proof.
  destruct rev; simpl.
  - apply cheerio_fetch.
  - unfold Playwright.fetchPageContent.
    replace (maxRetries + 1) with (S maxRetries) by lia.
    apply playwright_loop. lia.
Qed.

Lemma Attempts_unique (w : world) (url : string) (bound : nat)
  (f f' : fetched) (n n' : nat) :
  Attempts w url bound f n -> Attempts w url bound f' n' -> f = f' /\ n = n'.
Proof.
  intros (Hn & Hfail & Hlast) (Hn' & Hfail' & Hlast').
  destruct (Nat.lt_trichotomy n n') as [Hlt | [-> | Hgt]].
  - assert (H : loadAt w url (n - 1) = None) by (apply Hfail'; lia).
    destruct f as [pd | |]; [congruence | | contradiction].
    destruct Hlast as [-> _]. lia.
  - split; [| reflexivity].
    destruct f as [pd | |], f' as [pd' | |]; try contradiction.
    + congruence.
    + destruct Hlast' as [_ H]. congruence.
    + destruct Hlast as [_ H]. congruence.
    + reflexivity.
  - assert (H : loadAt w url (n' - 1) = None) by (apply Hfail; lia).
    destruct f' as [pd | |]; [congruence | | contradiction].
    destruct Hlast' as [-> _]. lia.
Qed.

Lemma fetch_of_attempts (rev : revision) (url : string) (maxRetries : nat)
  (w : world) (f : fetched) (n : nat) :
  Attempts w url maxRetries f n ->
  fetch rev url maxRetries w = (Ret f, afterLoads url n w).
Proof.
  intros H.
  destruct (fetch_attempts rev url maxRetries w) as (f' & n' & Hrun & H').
  destruct (Attempts_unique _ _ _ _ _ _ _ H H') as [-> ->]. exact Hrun.
Qed.

Lemma Attempts_net (w w' : world) (url : string) (bound : nat)
  (f : fetched) (n : nat) :
  net w' = net w -> Attempts w url bound f n -> Attempts w' url bound f n.
Proof.
  intros Hnet. unfold Attempts, loadAt, script. now rewrite Hnet.
Qed.

(** ** The detector, for any fetcher *)

Section DetectorFacts.

Variable diffLines : string -> string -> list change.
Variable fetchPage : string -> M fetched.

Local Abbreviation check := (checkIfNewOrUpdatedWith diffLines fetchPage).

Variables (url : string) (w w1 : world).

Lemma detector_error (f : fetched) :
  fetchPage url w = (Ret f, w1) ->
  truthy f = false ->
  check url w = (Ret (Result false false true None None), w1).
Proof.
  intros Hf Ht. unfold checkIfNewOrUpdatedWith, bind. rewrite Hf.
  destruct f; [discriminate | reflexivity | reflexivity].
Qed.

Variable pd : pageData.
Hypothesis Hfetch : fetchPage url w = (Ret (Snapshot pd), w1).

Local Abbreviation file := (lastContentFile url).

Lemma detector_rethrow (e : jsError) :
  stat w1 file = Throw e ->
  hasCode e "ENOENT" = false ->
  check url w = (Throw e, afterRead file w1).
Proof.
  intros Hs Hc. unfold checkIfNewOrUpdatedWith, bind, tryCatch, readFile.
  rewrite Hfetch. cbn beta iota. rewrite Hs, Hc. reflexivity.
Qed.

Lemma detector_missing_empty (e : jsError) :
  stat w1 file = Throw e ->
  hasCode e "ENOENT" = true ->
  content pd = EmptyString ->
  check url w = (Ret (Result false true false None None), afterRead file w1).
Proof.
  intros Hs Hc He. unfold checkIfNewOrUpdatedWith, bind, tryCatch, readFile.
  rewrite Hfetch. cbn beta iota. rewrite Hs, Hc. unfold ret. cbn.
  rewrite He. reflexivity.
Qed.

Lemma detector_missing (e : jsError) :
  stat w1 file = Throw e ->
  hasCode e "ENOENT" = true ->
  content pd <> EmptyString ->
  wfault w1 !! file = None ->
  check url w =
    (Ret (Result true true false (Some (title pd))
            (Some (filter (fun c => isEdit c = true)
                     (diffLines EmptyString (content pd))))),
     afterWrite file (content pd) (afterRead file w1)).
Proof.
  intros Hs Hc Hne Hw.
  unfold checkIfNewOrUpdatedWith, bind, tryCatch, readFile.
  rewrite Hfetch. cbn beta iota. rewrite Hs, Hc. unfold ret. cbn.
  apply String.eqb_neq in Hne. rewrite Hne. cbn.
  unfold writeFile. cbn. rewrite Hw. reflexivity.
Qed.

Lemma detector_same (old : string) :
  stat w1 file = Ret old ->
  content pd = old ->
  check url w = (Ret (Result false false false None None), afterRead file w1).
Proof.
  intros Hs He. unfold checkIfNewOrUpdatedWith, bind, tryCatch, readFile.
  rewrite Hfetch. cbn beta iota. rewrite Hs. unfold ret. cbn.
  rewrite He, String.eqb_refl. reflexivity.
Qed.

Lemma detector_differs (old : string) :
  stat w1 file = Ret old ->
  content pd <> old ->
  wfault w1 !! file = None ->
  check url w =
    (Ret (Result true false false (Some (title pd))
            (Some (filter (fun c => isEdit c = true)
                     (diffLines old (content pd))))),
     afterWrite file (content pd) (afterRead file w1)).
Proof.
  intros Hs Hne Hw.
  unfold checkIfNewOrUpdatedWith, bind, tryCatch, readFile.
  rewrite Hfetch. cbn beta iota. rewrite Hs. unfold ret. cbn.
  apply String.eqb_neq in Hne. rewrite Hne. cbn.
  unfold writeFile. cbn. rewrite Hw. reflexivity.
Qed.

Lemma detector_write_fails (c : string) :
  content pd <> match stat w1 file with Ret old => old | Throw _ => EmptyString end ->
  (forall e, stat w1 file = Throw e -> hasCode e "ENOENT" = true) ->
  wfault w1 !! file = Some c ->
  check url w =
    (Throw (SystemError c),
     emit (EvWrite file (content pd)) (afterRead file w1)).
Proof.
  intros Hne Hcode Hw.
  unfold checkIfNewOrUpdatedWith, bind, tryCatch, readFile.
  rewrite Hfetch. cbn beta iota.
  destruct (stat w1 file) as [old | e] eqn:Hs.
  - unfold ret. cbn. apply String.eqb_neq in Hne. rewrite Hne. cbn.
    unfold writeFile. cbn. rewrite Hw. reflexivity.
  - rewrite (Hcode e eq_refl). unfold ret. cbn.
    apply String.eqb_neq in Hne. rewrite Hne. cbn.
    unfold writeFile. cbn. rewrite Hw. reflexivity.
Qed.

End DetectorFacts.

(** ** The detector of each revision *)

Lemma detect_unfold (rev : revision) (diffLines : string -> string -> list change) :
  detect rev diffLines =
  checkIfNewOrUpdatedWith diffLines (fun url => fetch rev url (retryBound rev)).
Proof. destruct rev; reflexivity. Qed.

Lemma task_unfold (rev : revision) (diffLines : string -> string -> list change)
  (url : string) (w : world) :
  task rev diffLines url w =
  match detect rev diffLines url w with
  | (Ret r, w') => collect url r w'
  | (Throw e, w') => (Throw e, w')
  end.
Proof. destruct rev; reflexivity. Qed.

Lemma stat_afterLoads (url : string) (n : nat) (w : world) (path : string) :
  stat (afterLoads url n w) path = stat w path.
Proof. apply stat_sameStore, afterLoads_sameStore. Qed.

Lemma wfault_afterLoads (url : string) (n : nat) (w : world) :
  wfault (afterLoads url n w) = wfault w.
Proof. apply (afterLoads_sameStore url n w). Qed.

Lemma files_afterLoads (url : string) (n : nat) (w : world) :
  files (afterLoads url n w) = files w.
Proof. apply (afterLoads_sameStore url n w). Qed.

Lemma report_afterLoads (url : string) (n : nat) (w : world) :
  report (afterLoads url n w) = report w.
Proof. apply (afterLoads_sameStore url n w). Qed.

Lemma arrays_afterLoads (url : string) (n : nat) (w : world) :
  updates (afterLoads url n w) = updates w
  /\ newUrls (afterLoads url n w) = newUrls w
  /\ errors (afterLoads url n w) = errors w.
Proof.
  pose proof (report_afterLoads url n w) as H. unfold report in H.
  injection H as H1 H2 H3. auto.
Qed.

Section RevisionFacts.

Variable diffLines : string -> string -> list change.
Variables (rev : revision) (url : string) (w : world).

Local Abbreviation file := (lastContentFile url).

Lemma detect_error (n : nat) :
  Attempts w url (retryBound rev) JsNull n ->
  detect rev diffLines url w =
    (Ret (Result false false true None None), afterLoads url n w).
Proof.
  intros Ha. rewrite detect_unfold.
  apply detector_error with (f := JsNull); [| reflexivity].
  now apply fetch_of_attempts.
Qed.

Variables (pd : pageData) (n : nat).
Hypothesis Hloads : Attempts w url (retryBound rev) (Snapshot pd) n.

Lemma detect_rethrow (e : jsError) :
  stat w file = Throw e ->
  hasCode e "ENOENT" = false ->
  detect rev diffLines url w = (Throw e, afterRead file (afterLoads url n w)).
Proof.
  intros Hs Hc. rewrite detect_unfold.
  apply detector_rethrow with (pd := pd); [| | exact Hc].
  - now apply fetch_of_attempts.
  - now rewrite stat_afterLoads.
Qed.

Lemma detect_missing_empty :
  stat w file = Throw (SystemError "ENOENT") ->
  content pd = EmptyString ->
  detect rev diffLines url w =
    (Ret (Result false true false None None),
     afterRead file (afterLoads url n w)).
Proof.
  intros Hs He. rewrite detect_unfold.
  apply detector_missing_empty
    with (pd := pd) (e := SystemError "ENOENT"); [| | reflexivity | exact He].
  - now apply fetch_of_attempts.
  - now rewrite stat_afterLoads.
Qed.

Lemma detect_missing :
  stat w file = Throw (SystemError "ENOENT") ->
  content pd <> EmptyString ->
  wfault w !! file = None ->
  detect rev diffLines url w =
    (Ret (Result true true false (Some (title pd))
            (Some (filter (fun c => isEdit c = true)
                     (diffLines EmptyString (content pd))))),
     afterWrite file (content pd) (afterRead file (afterLoads url n w))).
Proof.
  intros Hs Hne Hw. rewrite detect_unfold.
  apply detector_missing with (e := SystemError "ENOENT");
    [| | reflexivity | exact Hne |].
  - now apply fetch_of_attempts.
  - now rewrite stat_afterLoads.
  - now rewrite wfault_afterLoads.
Qed.

Lemma detect_same (old : string) :
  stat w file = Ret old ->
  content pd = old ->
  detect rev diffLines url w =
    (Ret (Result false false false None None),
     afterRead file (afterLoads url n w)).
Proof.
  intros Hs He. rewrite detect_unfold.
  apply detector_same with (pd := pd) (old := old); [| | exact He].
  - now apply fetch_of_attempts.
  - now rewrite stat_afterLoads.
Qed.

Lemma detect_differs (old : string) :
  stat w file = Ret old ->
  content pd <> old ->
  wfault w !! file = None ->
  detect rev diffLines url w =
    (Ret (Result true false false (Some (title pd))
            (Some (filter (fun c => isEdit c = true)
                     (diffLines old (content pd))))),
     afterWrite file (content pd) (afterRead file (afterLoads url n w))).
Proof.
  intros Hs Hne Hw. rewrite detect_unfold.
  apply detector_differs; [| | exact Hne |].
  - now apply fetch_of_attempts.
  - now rewrite stat_afterLoads.
  - now rewrite wfault_afterLoads.
Qed.

(** A write that throws leaves the detector with that error, after the
    read. *)
Lemma detect_write_fails (old code : string) :
  stat w file = Ret old ->
  content pd <> old ->
  wfault w !! file = Some code ->
  detect rev diffLines url w =
    (Throw (SystemError code),
     emit (EvWrite file (content pd)) (afterRead file (afterLoads url n w))).
Proof.
  intros Hs Hne Hw. rewrite detect_unfold.
  apply detector_write_fails.
  - now apply fetch_of_attempts.
  - now rewrite stat_afterLoads, Hs.
  - intros e He. rewrite stat_afterLoads in He. congruence.
  - now rewrite wfault_afterLoads.
Qed.

End RevisionFacts.

Lemma filter_isEdit (l : list change) :
  Forall (fun c => added c = true \/ removed c = true)
         (filter (fun c => isEdit c = true) l).
Proof.
  apply Forall_forall. intros c Hc.
  apply list_elem_of_filter in Hc. destruct Hc as [Hc _].
  unfold isEdit in Hc. now apply orb_true_iff in Hc.
Qed.

Lemma collect_report_error (url : string) (w : world) :
  collect url (Result false false true None None) w
  = (Ret tt, setErrors (errors w ++ [url]) w).
Proof. reflexivity. Qed.

Lemma stat_afterRead (file path : string) (w : world) :
  stat (afterRead file w) path = stat w path.
Proof. reflexivity. Qed.

Lemma stat_afterWrite (file data : string) (w : world) :
  rfault w !! file = None ->
  stat (afterWrite file data w) file = Ret data.
Proof.
  intros Hr. unfold stat, afterWrite. simpl. rewrite Hr.
  now rewrite lookup_insert_eq.
Qed.

Lemma stat_found (w : world) (path old : string) :
  stat w path = Ret old -> rfault w !! path = None /\ files w !! path = Some old.
Proof.
  unfold stat. destruct (rfault w !! path); [discriminate |].
  destruct (files w !! path); [| discriminate].
  intros H. injection H as ->. now split.
Qed.

(** ** Claims about one URL *)

(** C2.  A URL whose stored baseline equals the freshly fetched content is
    Unchanged: the detector returns [{ updated: false, isNew: false }], the
    only file-system call it makes is the read, so the stored record is what
    it was, and the task of that URL appends nothing to [updates], [newUrls]
    or [errors], the only arrays the senders read. *)
Theorem unchanged_page_leaves_baseline
  (diffLines : string -> string -> list change)
  (rev : revision) (url : string) (w : world)
  (pd : pageData) (n : nat) (old : string) :
  Attempts w url (retryBound rev) (Snapshot pd) n ->
  stat w (lastContentFile url) = Ret old ->
  content pd = old ->
  let r := Result false false false None None in
  let w' := afterRead (lastContentFile url) (afterLoads url n w) in
  detect rev diffLines url w = (Ret r, w')
  /\ outcomeOf r = Unchanged
  /\ files w' = files w
  /\ stat w' (lastContentFile url) = Ret old
  /\ trace w' = trace w ++ repeat (EvGet url) n ++ [EvRead (lastContentFile url)]
  /\ task rev diffLines url w = (Ret tt, w')
  /\ report w' = report w.
Proof.
  intros Ha Hs He r w'.
  assert (Hd : detect rev diffLines url w = (Ret r, w'))
    by (eapply detect_same; eassumption).
  split; [exact Hd |]. split; [reflexivity |].
  split; [apply files_afterLoads |].
  split; [unfold w'; now rewrite stat_afterRead, stat_afterLoads |].
  split; [unfold w'; simpl; now rewrite afterLoads_trace, <- app_assoc |].
  split; [rewrite task_unfold, Hd; reflexivity |].
  apply report_afterLoads.
Qed.

(** C3.  A URL whose stored baseline differs from the freshly fetched content
    is Updated: the hunks returned are those of [diffLines(old, new)] that are
    added or removed, nothing else; the baseline file then holds the new
    content; and the task files the URL, its title and these hunks under
    [updates].  The write is assumed not to fail. *)
Theorem changed_page_is_updated
  (diffLines : string -> string -> list change)
  (rev : revision) (url : string) (w : world)
  (pd : pageData) (n : nat) (old : string) :
  Attempts w url (retryBound rev) (Snapshot pd) n ->
  stat w (lastContentFile url) = Ret old ->
  content pd <> old ->
  wfault w !! lastContentFile url = None ->
  let hunks := filter (fun c => isEdit c = true) (diffLines old (content pd)) in
  let r := Result true false false (Some (title pd)) (Some hunks) in
  let w' := afterWrite (lastContentFile url) (content pd)
              (afterRead (lastContentFile url) (afterLoads url n w)) in
  detect rev diffLines url w = (Ret r, w')
  /\ outcomeOf r = Updated (Some (title pd)) (Some hunks)
  /\ Forall (fun c => added c = true \/ removed c = true) hunks
  /\ (forall c, c ∈ hunks <-> isEdit c = true /\ c ∈ diffLines old (content pd))
  /\ stat w' (lastContentFile url) = Ret (content pd)
  /\ task rev diffLines url w =
       (Ret tt, setUpdates
                  (updates w ++ [UpdateEntry url (Some (title pd)) (Some hunks)]) w').
Proof.
  intros Ha Hs Hne Hw hunks r w'.
  assert (Hd : detect rev diffLines url w = (Ret r, w'))
    by (eapply detect_differs; eassumption).
  split; [exact Hd |]. split; [reflexivity |].
  split; [apply filter_isEdit |].
  split; [intros c; unfold hunks; now rewrite list_elem_of_filter |].
  split.
  - apply stat_afterWrite. simpl.
    destruct (afterLoads_sameStore url n w) as (_ & -> & _).
    now apply stat_found in Hs.
  - rewrite task_unfold, Hd. unfold collect, pushUpdate. simpl.
    destruct (arrays_afterLoads url n w) as (-> & _ & _). reflexivity.
Qed.

(** C9.  A URL whose loads all fail, up to the last the retry bound allows,
    is an Error: the detector returns [{ error: true }] straight after the
    fetcher, the only calls issued are the page loads, and disk and baseline
    are what they were.  The task files the URL under [errors]. *)
Theorem failed_fetch_touches_no_baseline
  (diffLines : string -> string -> list change)
  (rev : revision) (url : string) (w : world) (n : nat) :
  Attempts w url (retryBound rev) JsNull n ->
  let r := Result false false true None None in
  let w' := afterLoads url n w in
  detect rev diffLines url w = (Ret r, w')
  /\ n = retryBound rev + 1
  /\ outcomeOf r = Error
  /\ trace w' = trace w ++ repeat (EvGet url) n
  /\ files w' = files w
  /\ (forall path, stat w' path = stat w path)
  /\ task rev diffLines url w = (Ret tt, setErrors (errors w ++ [url]) w').
Proof.
  intros Ha r w'.
  assert (Hd : detect rev diffLines url w = (Ret r, w'))
    by (now apply detect_error).
  split; [exact Hd |].
  split; [destruct Ha as (_ & _ & Hn & _); exact Hn |].
  split; [reflexivity |].
  split; [apply afterLoads_trace |].
  split; [apply files_afterLoads |].
  split; [intros path; apply stat_afterLoads |].
  rewrite task_unfold, Hd, collect_report_error. unfold w'.
  destruct (arrays_afterLoads url n w) as (_ & _ & ->). reflexivity.
Qed.

(** C10.  When the read of the baseline throws an error whose code is not
    [ENOENT], the detector throws that same error and returns no result; the
    task of the URL rejects before any [push], so the URL is in none of
    [updates], [newUrls] and [errors]. *)
Theorem read_error_is_rethrown
  (diffLines : string -> string -> list change)
  (rev : revision) (url : string) (w : world)
  (pd : pageData) (n : nat) (code : string) :
  Attempts w url (retryBound rev) (Snapshot pd) n ->
  stat w (lastContentFile url) = Throw (SystemError code) ->
  code <> "ENOENT" ->
  let w' := afterRead (lastContentFile url) (afterLoads url n w) in
  detect rev diffLines url w = (Throw (SystemError code), w')
  /\ task rev diffLines url w = (Throw (SystemError code), w')
  /\ settle (task rev diffLines url) w = (Ret (Throw (SystemError code)), w')
  /\ report w' = report w
  /\ files w' = files w.
Proof.
  intros Ha Hs Hc w'.
  assert (Hd : detect rev diffLines url w = (Throw (SystemError code), w')).
  { eapply detect_rethrow; [eassumption | eassumption |].
    simpl. now apply String.eqb_neq. }
  assert (Ht : task rev diffLines url w = (Throw (SystemError code), w'))
    by (rewrite task_unfold, Hd; reflexivity).
  split; [exact Hd |]. split; [exact Ht |].
  split; [unfold settle; now rewrite Ht |].
  split; [apply report_afterLoads | apply files_afterLoads].
Qed.


(** A URL without baseline whose page has some text is filed as new, with
    its title, and its text becomes the baseline. *)
Lemma first_observation_is_new
  (diffLines : string -> string -> list change)
  (rev : revision) (url : string) (w : world) (pd : pageData) (n : nat) :
  Attempts w url (retryBound rev) (Snapshot pd) n ->
  stat w (lastContentFile url) = Throw (SystemError "ENOENT") ->
  content pd <> EmptyString ->
  wfault w !! lastContentFile url = None ->
  let hunks := filter (fun c => isEdit c = true)
                      (diffLines EmptyString (content pd)) in
  let r := Result true true false (Some (title pd)) (Some hunks) in
  let w' := afterWrite (lastContentFile url) (content pd)
              (afterRead (lastContentFile url) (afterLoads url n w)) in
  detect rev diffLines url w = (Ret r, w')
  /\ outcomeOf r = New (Some (title pd))
  /\ files w' !! lastContentFile url = Some (content pd)
  /\ task rev diffLines url w =
       (Ret tt, setNewUrls (newUrls w ++ [NewEntry url (Some (title pd))]) w').
Proof.
  intros Ha Hs Hne Hw hunks r w'.
  assert (Hd : detect rev diffLines url w = (Ret r, w'))
    by (eapply detect_missing; eassumption).
  split; [exact Hd |]. split; [reflexivity |]. split.
  - unfold w', afterWrite. simpl. apply lookup_insert_eq.
  - rewrite task_unfold, Hd. unfold collect, pushNewUrl. simpl.
    destruct (arrays_afterLoads url n w) as (_ & -> & _). reflexivity.
Qed.

(** C1.  The behaviour at a page without text that has no baseline: the
    comparison against the initial [lastContent = ''] finds no difference,
    so nothing is written and the result carries no title.  The URL is filed
    as new with a missing title, no baseline exists afterwards, and the next
    run files it as new again. *)
Theorem blank_first_observation_leaves_no_baseline
  (diffLines : string -> string -> list change) (rev : revision) :
  let first := detect rev diffLines demoUrl blankPage in
  let second := detect rev diffLines demoUrl (snd first) in
  stat blankPage demoFile = Throw (SystemError "ENOENT")
  /\ loadAt blankPage demoUrl 0 = Some (PageData EmptyString "T")
  /\ fst first = Ret (Result false true false None None)
  /\ outcomeOf (Result false true false None None) = New None
  /\ trace (snd first) = [EvGet demoUrl; EvRead demoFile]
  /\ files (snd first) !! demoFile = None
  /\ fst second = Ret (Result false true false None None).
Proof.
  destruct rev; vm_compute; repeat split; reflexivity.
Qed.

(** C6, as stated, fails on a URL whose baseline differs from the page: the
    first of two calls in a row is Updated, neither New nor Unchanged. *)
Lemma first_call_on_stale_baseline_is_updated :
  exists r1 w1,
    detect RevCheerio LineDiff.diffLines demoUrl stalePage = (Ret r1, w1)
    /\ loadAt stalePage demoUrl 0 = Some (PageData "new" "T")
    /\ loadAt w1 demoUrl 0 = Some (PageData "new" "T")
    /\ outcomeOf r1 =
         Updated (Some "T")
                 (Some [Change "old" false true; Change "new" true false])
    /\ ~ ((exists t, outcomeOf r1 = New t) \/ outcomeOf r1 = Unchanged).
Proof.
  eexists _, _. split; [vm_compute; reflexivity |].
  split; [vm_compute; reflexivity |]. split; [vm_compute; reflexivity |].
  split; [vm_compute; reflexivity |].
  vm_compute. intros [[t H] | H]; discriminate.
Qed.

(** C6, amended.  Two calls in a row whose fetches succeed with the same
    content, on a disk that serves reads and writes of the baseline, and
    either some text on the page or a baseline to start with: the first
    call is New when there was no baseline, Unchanged when the baseline was
    the page, Updated otherwise; the second call is Unchanged, compared
    against the baseline the first one left. *)
Theorem second_call_is_unchanged
  (diffLines : string -> string -> list change)
  (rev : revision) (url : string) (w : world)
  (pd1 pd2 : pageData) (n1 n2 : nat) :
  Attempts w url (retryBound rev) (Snapshot pd1) n1 ->
  Attempts (afterLoads url n1 w) url (retryBound rev) (Snapshot pd2) n2 ->
  content pd2 = content pd1 ->
  rfault w !! lastContentFile url = None ->
  wfault w !! lastContentFile url = None ->
  content pd1 <> EmptyString \/ is_Some (files w !! lastContentFile url) ->
  exists r1 w1 w2,
    detect rev diffLines url w = (Ret r1, w1)
    /\ detect rev diffLines url w1 = (Ret (Result false false false None None), w2)
    /\ outcomeOf r1 =
         match files w !! lastContentFile url with
         | None => New (Some (title pd1))
         | Some old =>
             if String.eqb (content pd1) old then Unchanged
             else Updated (Some (title pd1))
                    (Some (filter (fun c => isEdit c = true)
                             (diffLines old (content pd1))))
         end
    /\ outcomeOf (Result false false false None None) = Unchanged
    /\ stat w1 (lastContentFile url) = Ret (content pd1)
    /\ stat w2 (lastContentFile url) = Ret (content pd1).
Proof.
  intros Ha1 Ha2 Hc Hr Hw Hsome.
  set (file := lastContentFile url) in *.
  assert (Hsecond : forall w1,
             net w1 = net (afterLoads url n1 w) ->
             stat w1 file = Ret (content pd1) ->
             detect rev diffLines url w1 =
               (Ret (Result false false false None None),
                afterRead file (afterLoads url n2 w1))
             /\ stat (afterRead file (afterLoads url n2 w1)) file
                = Ret (content pd1)).
  { intros w1 Hnet Hstat. split.
    - eapply detect_same; [| exact Hstat | exact Hc].
      eapply Attempts_net; [exact Hnet | exact Ha2].
    - now rewrite stat_afterRead, stat_afterLoads. }
  assert (Hrl : rfault (afterRead file (afterLoads url n1 w)) !! file = None).
  { simpl. destruct (afterLoads_sameStore url n1 w) as (_ & -> & _). exact Hr. }
  destruct (files w !! file) as [old |] eqn:Hfile.
  - assert (Hs : stat w file = Ret old) by (unfold stat; now rewrite Hr, Hfile).
    destruct (String.eqb_spec (content pd1) old) as [Heq | Hne].
    + set (w1 := afterRead file (afterLoads url n1 w)).
      assert (Hs1 : stat w1 file = Ret (content pd1)).
      { unfold w1. rewrite stat_afterRead, stat_afterLoads. congruence. }
      destruct (Hsecond w1 eq_refl Hs1) as [Hd2 Hs2].
      eexists _, w1, _.
      split; [eapply detect_same; eassumption |].
      split; [exact Hd2 |]. split; [reflexivity |]. split; [reflexivity |].
      split; [exact Hs1 | exact Hs2].
    + set (w1 := afterWrite file (content pd1)
                   (afterRead file (afterLoads url n1 w))).
      assert (Hs1 : stat w1 file = Ret (content pd1))
        by (now apply stat_afterWrite).
      destruct (Hsecond w1 eq_refl Hs1) as [Hd2 Hs2].
      eexists _, w1, _.
      split; [eapply detect_differs; eassumption |].
      split; [exact Hd2 |]. split; [reflexivity |]. split; [reflexivity |].
      split; [exact Hs1 | exact Hs2].
  - assert (Hs : stat w file = Throw (SystemError "ENOENT"))
      by (unfold stat; now rewrite Hr, Hfile).
    assert (Hne : content pd1 <> EmptyString).
    { destruct Hsome as [H | [x H]]; [exact H | discriminate]. }
    set (w1 := afterWrite file (content pd1)
                 (afterRead file (afterLoads url n1 w))).
    assert (Hs1 : stat w1 file = Ret (content pd1))
      by (now apply stat_afterWrite).
    destruct (Hsecond w1 eq_refl Hs1) as [Hd2 Hs2].
    eexists _, w1, _.
    split; [eapply detect_missing; eassumption |].
    split; [exact Hd2 |]. split; [reflexivity |]. split; [reflexivity |].
    split; [exact Hs1 | exact Hs2].
Qed.

(** ** The shape of every result *)

(** Whatever the fetcher and the disk do, a result either is flagged
    [updated] and carries the title of the page with the added and removed
    hunks of [diffLines], or is not and carries neither. *)
Lemma detector_result_shape
  (diffLines : string -> string -> list change) (fetchPage : string -> M fetched)
  (url : string) (w w' : world) (r : result) :
  checkIfNewOrUpdatedWith diffLines fetchPage url w = (Ret r, w') ->
  (updated r = true /\ error r = false /\
   exists old pd,
     resultTitle r = Some (title pd) /\
     changes r = Some (filter (fun c => isEdit c = true)
                         (diffLines old (content pd))))
  \/ (updated r = false /\ resultTitle r = None /\ changes r = None).
Proof.
  unfold checkIfNewOrUpdatedWith, bind, tryCatch, readFile, writeFile, ret, throw.
  destruct (fetchPage url w) as [[f | e] w1]; [| discriminate].
  destruct f as [pd | |];
    [| intros H; injection H as <- _; right; auto
     | intros H; injection H as <- _; right; auto].
  destruct (stat w1 (lastContentFile url)) as [old | e]; cbn.
  - destruct (String.eqb (content pd) old); cbn.
    + intros H; injection H as <- _; right; auto.
    + destruct (wfault w1 !! lastContentFile url); [discriminate |].
      intros H; injection H as <- _; left. repeat split; eauto.
  - destruct (hasCode e "ENOENT"); [| discriminate]. cbn.
    destruct (String.eqb (content pd) EmptyString); cbn.
    + intros H; injection H as <- _; right; auto.
    + destruct (wfault w1 !! lastContentFile url); [discriminate |].
      intros H; injection H as <- _; left. repeat split; eauto.
Qed.

(** *** Stretches of a text *)

Lemma append_assoc (a b c : string) : (a +:+ b) +:+ c = a +:+ (b +:+ c).
Proof.
  induction a as [|x a IH]; [reflexivity |].
  change (String x ((a +:+ b) +:+ c) = String x (a +:+ (b +:+ c))).
  now rewrite IH.
Qed.

Lemma append_nil_r (a : string) : a +:+ EmptyString = a.
Proof.
  induction a as [|x a IH]; [reflexivity |].
  change (String x (a +:+ EmptyString) = String x a). now rewrite IH.
Qed.

Lemma occursIn_refl (a : string) : occursIn a a.
Proof.
  exists EmptyString, EmptyString. rewrite append_nil_r. reflexivity.
Qed.

Lemma occursIn_prefix (p a b : string) : occursIn a b -> occursIn a (p +:+ b).
Proof.
  intros (pre & post & ->). exists (p +:+ pre), post. now rewrite append_assoc.
Qed.

Lemma occursIn_suffix (q a b : string) : occursIn a b -> occursIn a (b +:+ q).
Proof.
  intros (pre & post & ->). exists pre, (post +:+ q).
  now rewrite !append_assoc.
Qed.

Lemma occursIn_join (l : string) (ls : list string) :
  l ∈ ls -> occursIn l (Js.join ls).
Proof.
  induction ls as [|x ls IH]; intros Hin; [now apply elem_of_nil in Hin |].
  destruct ls as [|y ls].
  - apply list_elem_of_singleton in Hin. subst. apply occursIn_refl.
  - change (Js.join (x :: y :: ls)) with (x +:+ Js.LF +:+ Js.join (y :: ls)).
    apply elem_of_cons in Hin. destruct Hin as [-> | Hin].
    + apply occursIn_suffix, occursIn_refl.
    + now apply occursIn_prefix, occursIn_prefix, IH.
Qed.

Lemma changeLine_edit (c : change) :
  isEdit c = true ->
  changeLine c
  = (if added c then "+ " else "- ") +:+ trimString (value c) defaultMaxLength.
Proof.
  unfold isEdit, changeLine. destruct (added c), (removed c);
    try discriminate; reflexivity.
Qed.

(** The block of an updated page holds the line of each of its hunks. *)
Lemma updateBlock_holds_lines (e : updateEntry) (hunks : list change)
  (c : change) (block : string) :
  u_changes e = Some hunks ->
  c ∈ hunks ->
  updateBlock e = Ret block ->
  occursIn (changeLine c) block.
Proof.
  intros Hch Hin Hb. unfold updateBlock in Hb. rewrite Hch in Hb.
  injection Hb as <-.
  do 12 apply occursIn_prefix. apply occursIn_suffix, occursIn_join.
  apply list_elem_of_fmap. now exists c.
Qed.

Lemma traverse_blocks (us : list updateEntry) :
  Forall (fun e => is_Some (u_changes e)) us ->
  exists blocks,
    traverse updateBlock us = Ret blocks
    /\ forall e, e ∈ us ->
         exists block, block ∈ blocks /\ updateBlock e = Ret block.
Proof.
  induction 1 as [|e us [cs He] _ (blocks & IH & Hall)].
  - exists []. split; [reflexivity |].
    intros e He. now apply elem_of_nil in He.
  - destruct (updateBlock e) as [b | err] eqn:Hb;
      [| unfold updateBlock in Hb; rewrite He in Hb; discriminate].
    exists (b :: blocks). split; [simpl; now rewrite Hb, IH |].
    intros e' He'. apply elem_of_cons in He'. destruct He' as [-> | He'].
    + exists b. split; [constructor | exact Hb].
    + destruct (Hall e' He') as (block & Hin & Hblock).
      exists block. split; [now constructor | exact Hblock].
Qed.

(** C8.  [trimString] with its default length returns a string of at most
    100 characters as it is, and cuts a longer one to its first 100
    characters followed by three dots.  It is called where the lines of the
    notification are built ([changeLine]); the hunks a result carries, and
    the task files under [updates], are those of [diffLines], uncut.
    The text [sendUpdateNotification] posts holds, for every added or
    removed hunk of every entry, the sign of the hunk followed by its value
    cut by [trimString]; for one entry the whole text is spelled out. *)
Theorem truncation_is_display_only :
  (forall s, String.length s <= 100 -> trimString s defaultMaxLength = s)
  /\ (forall s, 100 < String.length s ->
        trimString s defaultMaxLength = Js.substring0 s 100 +:+ "..."
        /\ String.length (Js.substring0 s 100) = 100
        /\ (exists rest, s = Js.substring0 s 100 +:+ rest)
        /\ String.length (trimString s defaultMaxLength) = 103)
  /\ (forall c, added c = true ->
        changeLine c = "+ " +:+ trimString (value c) defaultMaxLength)
  /\ (forall c, added c = false -> removed c = true ->
        changeLine c = "- " +:+ trimString (value c) defaultMaxLength)
  /\ (forall diffLines rev url w r w' hunks,
        detect rev diffLines url w = (Ret r, w') ->
        changes r = Some hunks ->
        exists old pd,
          hunks = filter (fun c => isEdit c = true) (diffLines old (content pd)))
  /\ (forall diffLines rev url w r w' t hunks,
        detect rev diffLines url w = (Ret r, w') ->
        outcomeOf r = Updated t hunks ->
        hunks = changes r /\
        task rev diffLines url w =
          (Ret tt, setUpdates (updates w' ++ [UpdateEntry url t hunks]) w'))
  /\ (forall us w,
        us <> [] ->
        Forall (fun e => is_Some (u_changes e)) us ->
        exists text,
          sendUpdateNotification us w = (Ret tt, emit (EvPost text) w)
          /\ forall e hunks c,
               e ∈ us -> u_changes e = Some hunks -> c ∈ hunks ->
               isEdit c = true ->
               occursIn ((if added c then "+ " else "- ")
                         +:+ trimString (value c) defaultMaxLength) text)
  /\ (forall url t hunks w,
        sendUpdateNotification [UpdateEntry url (Some t) (Some hunks)] w =
        (Ret tt,
         emit (EvPost
                 ("以下のページが更新されました:" +:+ Js.LF +:+ Js.LF
                  +:+ "**" +:+ url +:+ " のページが更新されました！**" +:+ Js.LF
                  +:+ "**タイトル:** " +:+ t +:+ Js.LF
                  +:+ Js.LF
                  +:+ "**変更点:**" +:+ Js.LF
                  +:+ "```diff" +:+ Js.LF
                  +:+ Js.join
                        (map (fun c =>
                                if added c
                                then "+ " +:+ trimString (value c) 100
                                else if removed c
                                     then "- " +:+ trimString (value c) 100
                                     else EmptyString) hunks)
                  +:+ Js.LF
                  +:+ "```" +:+ Js.LF +:+ Js.LF)) w)).
Proof.
  split; [| split; [| split; [| split; [| split; [| split; [| split]]]]]].
  - intros s Hs. unfold trimString, defaultMaxLength.
    destruct (Nat.ltb_spec 100 (String.length s)); [lia | reflexivity].
  - intros s Hs.
    assert (Ht : trimString s defaultMaxLength = Js.substring0 s 100 +:+ "...").
    { unfold trimString, defaultMaxLength.
      destruct (Nat.ltb_spec 100 (String.length s)); [reflexivity | lia]. }
    assert (Hl : String.length (Js.substring0 s 100) = 100)
      by (apply substring0_length; lia).
    split; [exact Ht |]. split; [exact Hl |].
    split; [apply substring0_prefix |].
    rewrite Ht, length_append, Hl. reflexivity.
  - intros c Ha. unfold changeLine. now rewrite Ha.
  - intros c Ha Hr. unfold changeLine. now rewrite Ha, Hr.
  - intros diffLines rev url w r w' hunks Hd Hch.
    rewrite detect_unfold in Hd.
    destruct (detector_result_shape _ _ _ _ _ _ Hd)
      as [(_ & _ & old & pd & _ & Hc) | (_ & _ & Hc)]; [| congruence].
    exists old, pd. congruence.
  - intros diffLines rev url w r w' t hunks Hd Ho.
    rewrite task_unfold, Hd. unfold outcomeOf in Ho. unfold collect.
    destruct (error r); [discriminate |].
    destruct (isNew r); [discriminate |].
    destruct (updated r); [| discriminate].
    injection Ho as <- <-. split; reflexivity.
  - intros us w Hne Hall.
    destruct (traverse_blocks us Hall) as (blocks & Htr & Hblocks).
    eexists. split.
    + unfold sendUpdateNotification. rewrite Htr.
      destruct us; [contradiction | reflexivity].
    + intros e hunks c He Hch Hc Hedit.
      destruct (Hblocks e He) as (block & Hin & Hblock).
      rewrite <- changeLine_edit by exact Hedit.
      do 3 apply occursIn_prefix.
      destruct (occursIn_join block blocks Hin) as (pre & post & ->).
      apply occursIn_prefix, occursIn_suffix.
      now apply (updateBlock_holds_lines e hunks).
  - intros url t hunks w. reflexivity.
Qed.

(** ** Whole runs *)

(** The detector changes none of the three arrays, whatever it resolves or
    rejects with. *)
Lemma detect_report (rev : revision) (diffLines : string -> string -> list change)
  (url : string) (w : world) :
  report (snd (detect rev diffLines url w)) = report w.
Proof.
  rewrite detect_unfold.
  unfold checkIfNewOrUpdatedWith, bind, tryCatch, readFile, writeFile, ret, throw.
  destruct (fetch_attempts rev url (retryBound rev) w) as (f & n & -> & _).
  pose proof (report_afterLoads url n w) as Hrep.
  destruct f as [pd | |]; [| exact Hrep | exact Hrep].
  destruct (stat (afterLoads url n w) (lastContentFile url)) as [old | e]; cbn.
  - destruct (String.eqb (content pd) old); cbn; [exact Hrep |].
    destruct (wfault (afterLoads url n w) !! lastContentFile url); exact Hrep.
  - destruct (hasCode e "ENOENT"); cbn; [| exact Hrep].
    destruct (String.eqb (content pd) EmptyString); cbn; [exact Hrep |].
    destruct (wfault (afterLoads url n w) !! lastContentFile url); exact Hrep.
Qed.

Lemma task_updatesComplete (rev : revision)
  (diffLines : string -> string -> list change) (url : string) (w : world) :
  updatesComplete w -> updatesComplete (snd (task rev diffLines url w)).
Proof.
  intros Hw. rewrite task_unfold.
  pose proof (detect_report rev diffLines url w) as Hrep.
  destruct (detect rev diffLines url w) as [[r | e] w'] eqn:Hd; simpl in Hrep.
  - assert (Hup : updates w' = updates w) by (now injection Hrep).
    rewrite detect_unfold in Hd.
    apply detector_result_shape in Hd.
    unfold collect, pushError, pushNewUrl, pushUpdate, ret, updatesComplete.
    destruct (error r) eqn:He; [simpl; now rewrite Hup |].
    destruct (isNew r); [simpl; now rewrite Hup |].
    destruct (updated r) eqn:Hu; [| simpl; now rewrite Hup].
    simpl. rewrite Hup. apply Forall_app. split; [exact Hw |].
    constructor; [| constructor]. simpl.
    destruct Hd as [(_ & _ & old & pd & _ & ->) | (Hd & _)];
      [eauto | congruence].
  - simpl. unfold updatesComplete.
    assert (Hup : updates w' = updates w) by (now injection Hrep).
    now rewrite Hup.
Qed.

Lemma settleAll_tasks (rev : revision)
  (diffLines : string -> string -> list change) (urls : list string) (w : world) :
  updatesComplete w ->
  exists cs w',
    settleAll (map (task rev diffLines) urls) w = (Ret cs, w')
    /\ updatesComplete w'.
Proof.
  revert w. induction urls as [|url urls IH]; intros w Hw.
  - exists [], w. split; [reflexivity | exact Hw].
  - pose proof (task_updatesComplete rev diffLines url w Hw) as Hw1.
    simpl. unfold bind, settle.
    destruct (task rev diffLines url w) as [c w1]. simpl in Hw1.
    destruct (IH w1 Hw1) as (cs & w' & -> & Hw').
    exists (c :: cs), w'. split; [reflexivity | exact Hw'].
Qed.

Lemma traverse_updateBlock (us : list updateEntry) :
  Forall (fun e => is_Some (u_changes e)) us ->
  exists blocks, traverse updateBlock us = Ret blocks.
Proof.
  induction 1 as [|e us [cs He] _ [blocks IH]]; simpl.
  - now exists [].
  - unfold updateBlock at 1. rewrite He, IH. eauto.
Qed.

Lemma sendAll_completes (w : world) :
  updatesComplete w -> exists w', sendAll w = (Ret tt, w').
Proof.
  intros Hw. unfold sendAll, bind.
  assert (H1 : exists w1, sendUpdateNotification (updates w) w = (Ret tt, w1)).
  { unfold sendUpdateNotification.
    destruct (length (updates w) =? 0); [now exists w |].
    destruct (traverse_updateBlock _ Hw) as [blocks ->]. unfold post. eauto. }
  destruct H1 as [w1 ->].
  assert (H2 : exists w2, sendNewUrlNotification (newUrls w) w1 = (Ret tt, w2)).
  { unfold sendNewUrlNotification.
    destruct (length (newUrls w) =? 0); [now exists w1 |]. unfold post. eauto. }
  destruct H2 as [w2 ->].
  unfold sendErrorNotification.
  destruct (length (errors w) =? 0); [now exists w2 |]. unfold post. eauto.
Qed.

(** The Playwright revision finishes every run whose URL list it can read:
    no rejection of a task leaves [checkForUpdates]. *)
Lemma playwright_run_completes
  (diffLines : string -> string -> list change) (w : world) (urls : list string) :
  sheet w = Some urls ->
  exists w', Playwright.checkForUpdates diffLines w = (Ret tt, w').
Proof.
  intros Hsheet.
  unfold Playwright.checkForUpdates, bind, ensureContentDirExists,
    getUrlsFromSheet, newArrays, promiseAllSettled. simpl. rewrite Hsheet.
  unfold bind.
  match goal with
  | |- context [settleAll _ ?w0] =>
      destruct (settleAll_tasks RevPlaywright diffLines urls w0)
        as (cs & w1 & Hrun & Hw1); [constructor |]
  end.
  simpl in Hrun. rewrite Hrun. unfold ret. now apply sendAll_completes.
Qed.

(** C5.  The behaviour of the axios revision on a run of two URLs where the
    baseline of the first cannot be read ([EACCES]) and the second is new:
    the rejection of the first task leaves [Promise.all] and then
    [checkForUpdates]; the second URL was collected under [newUrls] and its
    baseline written, yet nothing is posted.  The Playwright revision, with
    [Promise.allSettled], finishes the same run and posts the new URL. *)
Theorem storage_failure_aborts_axios_run
  (diffLines : string -> string -> list change) :
  let axios := run RevCheerio diffLines mixedRun in
  let playwright := run RevPlaywright diffLines mixedRun in
  sheet mixedRun = Some [demoUrl; otherUrl]
  /\ stat mixedRun demoFile = Throw (SystemError "EACCES")
  /\ fst axios = Throw (SystemError "EACCES")
  /\ posted (snd axios) = []
  /\ newUrls (snd axios) = [NewEntry otherUrl (Some "B")]
  /\ files (snd axios) !! lastContentFile otherUrl = Some "World"
  /\ fst playwright = Ret tt
  /\ report (snd playwright) = ([], [NewEntry otherUrl (Some "B")], [])
  /\ length (posted (snd playwright)) = 1.
Proof.
  vm_compute. repeat split; reflexivity.
Qed.

(** ** Scenarios *)

(** Three URLs: one never loads, one is new, one is unchanged.  The report
    has one error, one new URL and no update; the unchanged URL is in none
    of the arrays, and two messages are posted. *)
Example three_urls_scenario
  (diffLines : string -> string -> list change) (rev : revision) :
  let out := run rev diffLines threeUrls in
  fst out = Ret tt
  /\ report (snd out) = ([], [NewEntry otherUrl (Some "B")], [demoUrl])
  /\ length (posted (snd out)) = 2.
Proof.
  destruct rev; vm_compute; repeat split; reflexivity.
Qed.

(** The baseline holds two lines and the page gained a third: one added
    hunk, and the baseline takes the new content. *)
Example added_line_scenario (rev : revision) :
  let old := "Hello" +:+ Js.LF +:+ "World" in
  let new := old +:+ Js.LF +:+ "Foo" in
  let w := serving [Some (PageData new "T")] {[ demoFile := old ]} in
  let out := detect rev LineDiff.diffLines demoUrl w in
  fst out = Ret (Result true false false (Some "T")
                   (Some [Change "Foo" true false]))
  /\ files (snd out) !! demoFile = Some new.
Proof.
  destruct rev; vm_compute; split; reflexivity.
Qed.

(** ** Instances *)

(** Decides [Attempts] on a sample world. *)
Ltac script_attempts :=
  unfold Attempts; split;
  [ vm_compute; lia
  | split;
    [ let i := fresh "i" in
      let Hi := fresh "Hi" in
      intros i Hi; vm_compute in Hi;
      do 6 (destruct i as [| i]; [first [ reflexivity | lia ] |]); lia
    | vm_compute; auto ] ].

Lemma unchanged_page_witness :
  detect RevPlaywright LineDiff.diffLines demoUrl samePage =
    (Ret (Result false false false None None),
     afterRead demoFile (afterLoads demoUrl 2 samePage))
  /\ report (afterRead demoFile (afterLoads demoUrl 2 samePage)) = report samePage.
Proof.
  pose proof (unchanged_page_leaves_baseline LineDiff.diffLines RevPlaywright
                demoUrl samePage (PageData "Hello" "T") 2 "Hello") as H.
  cbv zeta in H.
  destruct H as (H1 & _ & _ & _ & _ & _ & H7);
    [script_attempts | reflexivity | reflexivity |].
  split; assumption.
Defined.

Lemma changed_page_witness :
  fst (detect RevCheerio LineDiff.diffLines demoUrl stalePage) =
    Ret (Result true false false (Some "T")
           (Some [Change "old" false true; Change "new" true false]))
  /\ stat (snd (detect RevCheerio LineDiff.diffLines demoUrl stalePage)) demoFile
     = Ret "new".
Proof.
  pose proof (changed_page_is_updated LineDiff.diffLines RevCheerio
                demoUrl stalePage (PageData "new" "T") 1 "old") as H.
  cbv zeta in H.
  destruct H as (H1 & _ & _ & _ & H5 & _);
    [script_attempts | reflexivity | discriminate | reflexivity |].
  rewrite H1. split; [reflexivity | exact H5].
Defined.

Lemma failed_fetch_witness :
  detect RevCheerio LineDiff.diffLines demoUrl deadPage =
    (Ret (Result false false true None None), afterLoads demoUrl 4 deadPage)
  /\ files (afterLoads demoUrl 4 deadPage) = files deadPage.
Proof.
  pose proof (failed_fetch_touches_no_baseline LineDiff.diffLines RevCheerio
                demoUrl deadPage 4) as H.
  cbv zeta in H.
  destruct H as (H1 & _ & _ & _ & H5 & _); [script_attempts |].
  split; assumption.
Defined.

Lemma read_error_witness :
  task RevPlaywright LineDiff.diffLines demoUrl lockedPage =
    (Throw (SystemError "EACCES"),
     afterRead demoFile (afterLoads demoUrl 1 lockedPage))
  /\ report (afterRead demoFile (afterLoads demoUrl 1 lockedPage))
     = report lockedPage.
Proof.
  pose proof (read_error_is_rethrown LineDiff.diffLines RevPlaywright
                demoUrl lockedPage (PageData "Hello" "T") 1 "EACCES") as H.
  cbv zeta in H.
  destruct H as (_ & H2 & _ & H4 & _);
    [script_attempts | reflexivity | discriminate |].
  split; assumption.
Defined.

Lemma second_call_witness :
  exists r1 w1 w2,
    detect RevCheerio LineDiff.diffLines demoUrl freshPage = (Ret r1, w1)
    /\ detect RevCheerio LineDiff.diffLines demoUrl w1 =
         (Ret (Result false false false None None), w2)
    /\ outcomeOf r1 = New (Some "T").
Proof.
  destruct (second_call_is_unchanged LineDiff.diffLines RevCheerio
              demoUrl freshPage (PageData "Hello" "T") (PageData "Hello" "T2") 1 2)
    as (r1 & w1 & w2 & H1 & H2 & H3 & _);
    [script_attempts | script_attempts | reflexivity | reflexivity
     | reflexivity | left; discriminate |].
  exists r1, w1, w2. split; [exact H1 |]. split; [exact H2 | exact H3].
Defined.

Lemma truncation_witness :
  trimString "short" defaultMaxLength = "short"
  /\ String.length
       (trimString (Js.join (repeat "0123456789" 12)) defaultMaxLength) = 103.
Proof.
  split.
  - apply (proj1 truncation_is_display_only). simpl. lia.
  - apply (proj1 (proj2 truncation_is_display_only)). vm_compute. lia.
Defined.


(** ** The line diff *)

Section LineDiffFacts.

Import LineDiff.

Lemma editScript_nil_l (ys : list string) :
  editScript [] ys = map (pair Add) ys.
Proof. reflexivity. Qed.

Lemma editScript_nil_r (xs : list string) :
  editScript xs [] = map (pair Del) xs.
Proof. destruct xs; reflexivity. Qed.

Lemma editScript_cons (x y : string) (xs ys : list string) :
  editScript (x :: xs) (y :: ys) =
  if String.eqb x y then (Keep, x) :: editScript xs ys
  else if keeps ((Add, y) :: editScript (x :: xs) ys)
            <=? keeps ((Del, x) :: editScript xs (y :: ys))
       then (Del, x) :: editScript xs (y :: ys)
       else (Add, y) :: editScript (x :: xs) ys.
Proof. reflexivity. Qed.

Lemma project_cons (p : op -> bool) (o : op) (l : string) (es : list edit) :
  project p ((o, l) :: es) = if p o then l :: project p es else project p es.
Proof. reflexivity. Qed.

Lemma project_adds (p : op -> bool) (ys : list string) :
  project p (map (pair Add) ys) = if p Add then ys else [].
Proof.
  induction ys as [|y ys IH]; simpl; [now destruct (p Add) |].
  rewrite IH. now destruct (p Add).
Qed.

Lemma project_dels (p : op -> bool) (xs : list string) :
  project p (map (pair Del) xs) = if p Del then xs else [].
Proof.
  induction xs as [|x xs IH]; simpl; [now destruct (p Del) |].
  rewrite IH. now destruct (p Del).
Qed.

(** A script relates the two lists it was computed from. *)
Lemma editScript_sides (xs ys : list string) :
  oldSide (editScript xs ys) = xs /\ newSide (editScript xs ys) = ys.
Proof.
  unfold oldSide, newSide. revert ys.
  induction xs as [|x xs IHx]; intros ys.
  - rewrite editScript_nil_l, !project_adds. now split.
  - induction ys as [|y ys IHy].
    + rewrite editScript_nil_r, !project_dels. now split.
    + rewrite editScript_cons.
      destruct (String.eqb_spec x y) as [-> | Hne].
      * destruct (IHx ys) as [H1 H2].
        rewrite !project_cons. cbn [negb isAdd isDel op_eqb].
        now rewrite H1, H2.
      * destruct (_ <=? _).
        -- destruct (IHx (y :: ys)) as [H1 H2].
           rewrite !project_cons. cbn [negb isAdd isDel op_eqb].
           now rewrite H1, H2.
        -- destruct IHy as [H1 H2].
           rewrite !project_cons. cbn [negb isAdd isDel op_eqb].
           now rewrite H1, H2.
Qed.

Lemma keeps_cons (o : op) (l : string) (es : list edit) :
  keeps ((o, l) :: es) = if isKeep o then S (keeps es) else keeps es.
Proof. unfold keeps, kept. simpl. now destruct (isKeep o). Qed.

Lemma sublist_tail {A : Type} (a : A) (l k : list A) :
  sublist (a :: l) k -> sublist l k.
Proof.
  intros H. transitivity (a :: l); [| exact H].
  apply sublist_cons. reflexivity.
Qed.

(** No common subsequence is longer than the kept lines of the script. *)
Lemma editScript_longest (xs ys c : list string) :
  sublist c xs -> sublist c ys -> length c <= keeps (editScript xs ys).
Proof.
  revert ys c. induction xs as [|x xs IHx]; intros ys c Hx Hy.
  - apply sublist_nil_r in Hx. subst c. simpl. lia.
  - revert c Hx Hy. induction ys as [|y ys IHy]; intros c Hx Hy.
    + apply sublist_nil_r in Hy. subst c. simpl. lia.
    + rewrite editScript_cons.
      destruct (String.eqb_spec x y) as [-> | Hne].
      * rewrite keeps_cons. cbn [isKeep op_eqb].
        destruct c as [|h t]; [simpl; lia |].
        assert (Ht : length t <= keeps (editScript xs ys)).
        { apply IHx.
          - apply sublist_cons_r in Hx.
            destruct Hx as [Hx | (t' & Heq & Hx)].
            + now apply sublist_tail in Hx.
            + now injection Heq as _ ->.
          - apply sublist_cons_r in Hy.
            destruct Hy as [Hy | (t' & Heq & Hy)].
            + now apply sublist_tail in Hy.
            + now injection Heq as _ ->. }
        simpl. lia.
      * assert (Hmax : length c <= keeps (editScript xs (y :: ys))
                       \/ length c <= keeps (editScript (x :: xs) ys)).
        { pose proof Hx as Hx'. apply sublist_cons_r in Hx'.
          destruct Hx' as [Hx' | (c' & -> & Hx')].
          - left. now apply IHx.
          - right. apply IHy; [exact Hx |].
            apply sublist_cons_r in Hy.
            destruct Hy as [Hy | (c'' & Heq & _)]; [exact Hy |].
            injection Heq as Heq _. contradiction. }
        rewrite !keeps_cons. cbn [isKeep op_eqb].
        destruct (Nat.leb_spec (keeps (editScript (x :: xs) ys))
                               (keeps (editScript xs (y :: ys))));
          rewrite keeps_cons; cbn [isKeep op_eqb]; lia.
Qed.

Lemma project_sublist (p q : op -> bool) (es : list edit) :
  (forall o, p o = true -> q o = true) ->
  sublist (project p es) (project q es).
Proof.
  intros Hpq. induction es as [|[o l] es IH]; simpl; [constructor |].
  destruct (p o) eqn:Hp.
  - rewrite (Hpq o Hp). now apply sublist_skip.
  - destruct (q o); [now apply sublist_cons | exact IH].
Qed.

Lemma kept_merge_added (es : list edit) :
  Merge (kept es) (addedOf es) (newSide es).
Proof.
  unfold kept, addedOf, newSide.
  induction es as [|[[| |] l] es IH]; simpl; [constructor | | | exact IH].
  - now apply Merge_left.
  - now apply Merge_right.
Qed.

Lemma kept_merge_removed (es : list edit) :
  Merge (kept es) (removedOf es) (oldSide es).
Proof.
  unfold kept, removedOf, oldSide.
  induction es as [|[[| |] l] es IH]; simpl; [constructor | | exact IH |].
  - now apply Merge_left.
  - now apply Merge_right.
Qed.

Lemma Merge_nil_r {A : Type} (l m : list A) : Merge l [] m -> l = m.
Proof.
  intros H. remember [] as r eqn:Hr.
  induction H as [| a l r m H IH | a l r m H IH]; [reflexivity | | discriminate].
  f_equal. now apply IH.
Qed.

(** The kept lines of the script are a longest common subsequence. *)
Lemma editScript_lcs (xs ys : list string) :
  LongestCommon (kept (editScript xs ys)) xs ys.
Proof.
  destruct (editScript_sides xs ys) as [Hold Hnew].
  split; [| split].
  - rewrite <- Hold at 2. apply project_sublist. now intros [| |].
  - rewrite <- Hnew at 2. apply project_sublist. now intros [| |].
  - intros c Hx Hy. now apply editScript_longest.
Qed.

Lemma editScript_same (xs : list string) :
  editScript xs xs = map (pair Keep) xs.
Proof.
  induction xs as [|x xs IH]; [reflexivity |].
  rewrite editScript_cons, String.eqb_refl, IH. reflexivity.
Qed.

(** *** Hunks *)

Lemma hunks_lines (p : op -> bool) (es : list edit) :
  hunkLines p (hunks es) = project p es.
Proof.
  induction es as [|[o l] es IH]; [reflexivity |].
  simpl. rewrite <- IH.
  destruct (hunks es) as [|[o' ls] hs]; simpl.
  - destruct (p o); reflexivity.
  - destruct o, o'; simpl; destruct (p _); try destruct (p _); reflexivity.
Qed.

Lemma hunks_good (es : list edit) :
  Forall noLF (map snd es) ->
  Forall (fun h => snd h <> [] /\ Forall noLF (snd h)) (hunks es).
Proof.
  induction es as [|[o l] es IH]; intros Hall; [constructor |].
  inversion Hall as [|? ? Hl Hes]; subst. specialize (IH Hes). simpl.
  destruct (hunks es) as [|[o' ls] hs].
  - constructor; [| constructor]. simpl. split; [discriminate | now constructor].
  - inversion IH as [|? ? [Hne Hls] Hhs]; subst. simpl in *.
    destruct (op_eqb o o').
    + constructor; [| exact Hhs]. simpl.
      split; [discriminate | now constructor].
    + constructor; [| exact IH]. simpl.
      split; [discriminate | now constructor].
Qed.

Lemma script_lines (P : string -> Prop) (es : list edit) :
  Forall P (oldSide es) -> Forall P (newSide es) -> Forall P (map snd es).
Proof.
  unfold oldSide, newSide.
  induction es as [|[[| |] l] es IH]; simpl; intros Ho Hn; [constructor | | |].
  - inversion Ho; inversion Hn; subst. constructor; auto.
  - inversion Hn; subst. constructor; auto.
  - inversion Ho; subst. constructor; auto.
Qed.

Lemma linesOf_added (hs : list (op * list string)) :
  Forall (fun h => snd h <> [] /\ Forall noLF (snd h)) hs ->
  linesOf added (filter (fun c => isEdit c = true) (map toChange hs))
  = hunkLines isAdd hs.
Proof.
  unfold linesOf.
  induction 1 as [|[o ls] hs [Hne Hls] _ IH]; [reflexivity |].
  simpl in Hne, Hls.
  destruct o; cbn [map].
  - rewrite filter_cons_False by (cbv; discriminate). exact IH.
  - rewrite filter_cons_True by reflexivity.
    rewrite filter_cons_True by reflexivity.
    cbn [map concat toChange value snd hunkLines isAdd op_eqb].
    rewrite IH, split_join by assumption. reflexivity.
  - rewrite filter_cons_True by reflexivity.
    rewrite filter_cons_False by (cbv; discriminate). exact IH.
Qed.

Lemma linesOf_removed (hs : list (op * list string)) :
  Forall (fun h => snd h <> [] /\ Forall noLF (snd h)) hs ->
  linesOf removed (filter (fun c => isEdit c = true) (map toChange hs))
  = hunkLines isDel hs.
Proof.
  unfold linesOf.
  induction 1 as [|[o ls] hs [Hne Hls] _ IH]; [reflexivity |].
  simpl in Hne, Hls.
  destruct o; cbn [map].
  - rewrite filter_cons_False by (cbv; discriminate). exact IH.
  - rewrite filter_cons_True by reflexivity.
    rewrite filter_cons_False by (cbv; discriminate). exact IH.
  - rewrite filter_cons_True by reflexivity.
    rewrite filter_cons_True by reflexivity.
    cbn [map concat toChange value snd hunkLines isDel op_eqb].
    rewrite IH, split_join by assumption. reflexivity.
Qed.

End LineDiffFacts.

Section DiffEngineFacts.

Import LineDiff.

Lemma tokenize_noLF (s : string) : Forall noLF (tokenize s).
Proof.
  unfold tokenize. destruct (String.eqb s EmptyString);
    [constructor | apply split_noLF].
Qed.

Lemma tokenize_inj (a b : string) : tokenize a = tokenize b -> a = b.
Proof.
  unfold tokenize.
  destruct (String.eqb_spec a EmptyString) as [-> | Ha],
           (String.eqb_spec b EmptyString) as [-> | Hb]; intros H.
  - reflexivity.
  - symmetry in H. now apply split_not_nil in H.
  - now apply split_not_nil in H.
  - rewrite <- (join_split a), <- (join_split b). now rewrite H.
Qed.

Lemma hunks_uniform (o : op) (xs : list string) :
  hunks (map (pair o) xs) = match xs with [] => [] | _ => [(o, xs)] end.
Proof.
  induction xs as [|x xs IH]; [reflexivity |].
  cbn [map hunks]. rewrite IH.
  destruct xs; [reflexivity |]. now destruct o.
Qed.

Lemma script_hunks_good (old new : string) :
  Forall (fun h => snd h <> [] /\ Forall noLF (snd h))
         (hunks (editScript (tokenize old) (tokenize new))).
Proof.
  apply hunks_good.
  destruct (editScript_sides (tokenize old) (tokenize new)) as [Ho Hn].
  apply script_lines; [rewrite Ho | rewrite Hn]; apply tokenize_noLF.
Qed.

Lemma diffEngine_added (old new : string) :
  linesOf added (diffEngine old new)
  = addedOf (editScript (tokenize old) (tokenize new)).
Proof.
  unfold diffEngine, diffLines, addedOf.
  rewrite linesOf_added by apply script_hunks_good. apply hunks_lines.
Qed.

Lemma diffEngine_removed (old new : string) :
  linesOf removed (diffEngine old new)
  = removedOf (editScript (tokenize old) (tokenize new)).
Proof.
  unfold diffEngine, diffLines, removedOf.
  rewrite linesOf_removed by apply script_hunks_good. apply hunks_lines.
Qed.

Lemma diffEngine_same (s : string) : diffEngine s s = [].
Proof.
  unfold diffEngine, diffLines. rewrite editScript_same, hunks_uniform.
  destruct (tokenize s); [reflexivity |].
  cbn [map]. now rewrite filter_cons_False by (cbv; discriminate).
Qed.

Lemma diffEngine_from_empty (new : string) :
  diffEngine EmptyString new =
  match tokenize new with
  | [] => []
  | ls => [Change (Js.join ls) true false]
  end.
Proof.
  unfold diffEngine, diffLines.
  change (tokenize EmptyString) with (@nil string).
  rewrite editScript_nil_l, hunks_uniform.
  destruct (tokenize new); [reflexivity |].
  cbn [map]. now rewrite filter_cons_True by reflexivity.
Qed.

Lemma diffEngine_differs (old new : string) :
  old <> new -> diffEngine old new <> [].
Proof.
  intros Hne Hnil. apply Hne, tokenize_inj.
  pose proof (diffEngine_added old new) as Ha.
  pose proof (diffEngine_removed old new) as Hr.
  rewrite Hnil in Ha, Hr.
  pose proof (kept_merge_added (editScript (tokenize old) (tokenize new))) as Hma.
  pose proof (kept_merge_removed (editScript (tokenize old) (tokenize new))) as Hmr.
  rewrite <- Ha in Hma. rewrite <- Hr in Hmr.
  apply Merge_nil_r in Hma. apply Merge_nil_r in Hmr.
  destruct (editScript_sides (tokenize old) (tokenize new)) as [Ho Hn].
  congruence.
Qed.

End DiffEngineFacts.

(** C7.  The line diff, modelled from the specification, after the filter of
    the caller: equal texts give no hunk; against the empty text every hunk
    is added and the hunks hold the lines of the new text, all of them and
    in order; different texts give at least one hunk, and there is a longest
    common subsequence of the two texts' lines such that the new text is it
    interleaved with exactly the lines of the added hunks, and the old text
    is it interleaved with exactly the lines of the removed hunks. *)
Theorem line_diff_reconstructs :
  (forall s, diffEngine s s = [])
  /\ (forall new,
        Forall (fun c => added c = true /\ removed c = false)
               (diffEngine EmptyString new)
        /\ concat (map (fun c => Js.split (value c)) (diffEngine EmptyString new))
           = LineDiff.tokenize new)
  /\ (forall old new,
        old <> new ->
        diffEngine old new <> []
        /\ Forall (fun c => added c = negb (removed c)) (diffEngine old new)
        /\ exists common,
             LongestCommon common (LineDiff.tokenize old) (LineDiff.tokenize new)
             /\ Merge common (linesOf added (diffEngine old new))
                      (LineDiff.tokenize new)
             /\ Merge common (linesOf removed (diffEngine old new))
                      (LineDiff.tokenize old)).
Proof.
  split; [exact diffEngine_same |]. split.
  - intros new. rewrite diffEngine_from_empty.
    pose proof (tokenize_noLF new) as Hlf.
    destruct (LineDiff.tokenize new) as [|l ls] eqn:E.
    + split; [constructor | reflexivity].
    + split; [repeat constructor |].
      cbn [map concat value]. rewrite app_nil_r.
      apply split_join; [discriminate | exact Hlf].
  - intros old new Hne. split; [now apply diffEngine_differs |]. split.
    + unfold diffEngine, LineDiff.diffLines.
      apply Forall_forall. intros c Hc.
      apply list_elem_of_filter in Hc. destruct Hc as [He Hc].
      apply list_elem_of_fmap in Hc. destruct Hc as ([o ls] & -> & _).
      now destruct o.
    + exists (LineDiff.kept
                (LineDiff.editScript (LineDiff.tokenize old) (LineDiff.tokenize new))).
      split; [apply editScript_lcs |].
      destruct (editScript_sides (LineDiff.tokenize old) (LineDiff.tokenize new))
        as [Ho Hn].
      split.
      * rewrite diffEngine_added. rewrite <- Hn at 3. apply kept_merge_added.
      * rewrite diffEngine_removed. rewrite <- Ho at 3. apply kept_merge_removed.
Qed.

Lemma line_diff_witness :
  diffEngine "a" "b" = [Change "a" false true; Change "b" true false]
  /\ diffEngine "a" "b" <> [].
Proof.
  split; [reflexivity |].
  apply (proj2 (proj2 line_diff_reconstructs) "a" "b"). discriminate.
Defined.

(* ===================================================================== *)
(** * Further properties *)
(* ===================================================================== *)

(** ** Baseline file names *)

Lemma append_inv_head (a x y : string) : a +:+ x = a +:+ y -> x = y.
Proof.
  induction a as [|c a IH]; simpl; intros H; [exact H |].
  injection H as H. now apply IH.
Qed.

Lemma append_inv_tail (x y s : string) : x +:+ s = y +:+ s -> x = y.
Proof.
  intros H.
  assert (Hlen : String.length x = String.length y).
  { apply (f_equal String.length) in H. rewrite !length_append in H. lia. }
  revert y H Hlen. induction x as [|c x IH]; intros [|d y] H Hlen;
    simpl in *; try discriminate; [reflexivity |].
  injection H as -> H. f_equal. apply IH; [exact H | lia].
Qed.

Lemma hexDigit_inj (a b : nat) :
  a < 16 -> b < 16 -> Js.hexDigit a = Js.hexDigit b -> a = b.
Proof.
  intros Ha Hb H. unfold Js.hexDigit in H.
  apply (f_equal nat_of_ascii) in H.
  destruct (Nat.ltb_spec a 10), (Nat.ltb_spec b 10);
    rewrite !nat_ascii_embedding in H by lia; lia.
Qed.

Lemma encodeURIComponent_inj (a b : string) :
  Js.encodeURIComponent a = Js.encodeURIComponent b -> a = b.
Proof.
  revert b. induction a as [|c a IH]; intros [|d b];
    cbn [Js.encodeURIComponent].
  - reflexivity.
  - destruct (Js.unreserved d); discriminate.
  - destruct (Js.unreserved c); discriminate.
  - destruct (Js.unreserved c) eqn:Hc, (Js.unreserved d) eqn:Hd.
    + intros H. injection H as -> H. f_equal. now apply IH.
    + intros H. injection H as -> _. vm_compute in Hc. discriminate.
    + intros H. injection H as <- _. vm_compute in Hd. discriminate.
    + pose proof (nat_ascii_bounded c) as Bc.
      pose proof (nat_ascii_bounded d) as Bd.
      pose proof (Nat.div_mod_eq (nat_of_ascii c) 16) as Ec.
      pose proof (Nat.div_mod_eq (nat_of_ascii d) 16) as Ed.
      assert (Qc : nat_of_ascii c / 16 < 16)
        by (apply Nat.Div0.div_lt_upper_bound; lia).
      assert (Qd : nat_of_ascii d / 16 < 16)
        by (apply Nat.Div0.div_lt_upper_bound; lia).
      assert (Rc : nat_of_ascii c mod 16 < 16)
        by (apply Nat.mod_upper_bound; lia).
      assert (Rd : nat_of_ascii d mod 16 < 16)
        by (apply Nat.mod_upper_bound; lia).
      cbv zeta.
      generalize dependent (nat_of_ascii c / 16).
      generalize dependent (nat_of_ascii c mod 16).
      generalize dependent (nat_of_ascii d / 16).
      generalize dependent (nat_of_ascii d mod 16).
      intros rd Rd qd Ed Qd rc Rc qc Ec Qc H.
      injection H as H1 H2 H.
      apply hexDigit_inj in H1; [| assumption | assumption].
      apply hexDigit_inj in H2; [| assumption | assumption].
      f_equal; [| now apply IH].
      rewrite <- (ascii_nat_embedding c), <- (ascii_nat_embedding d).
      f_equal. lia.
Qed.

Lemma lastContentFile_inj (url url' : string) :
  lastContentFile url = lastContentFile url' -> url = url'.
Proof.
  unfold lastContentFile. intros H.
  apply append_inv_head, append_inv_head in H.
  apply append_inv_tail in H. now apply encodeURIComponent_inj.
Qed.

Lemma unreserved_pathSafe (c : ascii) : Js.unreserved c = true -> pathSafe c.
Proof.
  intros H. split; intros ->; vm_compute in H; discriminate.
Qed.

Lemma hexDigit_pathSafe (k : nat) : k < 16 -> pathSafe (Js.hexDigit k).
Proof.
  intros Hk.
  do 16 (destruct k as [|k];
         [vm_compute; split; intros H; discriminate H |]).
  lia.
Qed.

Lemma encodeURIComponent_pathSafe (s : string) :
  Forall pathSafe (list_ascii_of_string (Js.encodeURIComponent s)).
Proof.
  induction s as [|c s IH]; cbn [Js.encodeURIComponent];
    [constructor |].
  destruct (Js.unreserved c) eqn:Hc; cbn [list_ascii_of_string].
  - constructor; [now apply unreserved_pathSafe | exact IH].
  - pose proof (nat_ascii_bounded c) as Bc.
    constructor; [split; intros H; discriminate H |].
    constructor;
      [apply hexDigit_pathSafe, Nat.Div0.div_lt_upper_bound; lia |].
    constructor; [apply hexDigit_pathSafe, Nat.mod_upper_bound; lia |].
    exact IH.
Qed.

(** X1.  Distinct URLs have distinct baseline files: the percent-encoding
    of a URL determines the URL, and so does the file name built from it. *)
Theorem baseline_files_do_not_collide (url url' : string) :
  (Js.encodeURIComponent url = Js.encodeURIComponent url' <-> url = url')
  /\ (lastContentFile url = lastContentFile url' <-> url = url').
Proof.
  split; split; intros H; try (now subst).
  - now apply encodeURIComponent_inj.
  - now apply lastContentFile_inj.
Qed.

(** X2.  The baseline file of a URL lies directly in the [contents]
    directory: its name is the directory, a slash, a name and [.txt], and
    that name holds no slash and no line feed, whatever the URL holds. *)
Theorem baseline_file_stays_in_directory (url : string) :
  exists name,
    lastContentFile url = contentDir +:+ "/" +:+ name +:+ ".txt"
    /\ Forall pathSafe (list_ascii_of_string name)
    /\ (url <> EmptyString <-> name <> EmptyString).
Proof.
  exists (Js.encodeURIComponent url). split; [reflexivity |].
  split; [apply encodeURIComponent_pathSafe |].
  destruct url as [|c url]; simpl.
  - split; intros H; now contradiction H.
  - destruct (Js.unreserved c); split; intros _; discriminate.
Qed.

(** ** Cutting for display *)

Lemma substring0_append (p r : string) :
  Js.substring0 (p +:+ r) (String.length p) = p.
Proof.
  unfold Js.substring0. induction p as [|c p IH]; simpl.
  - now destruct r.
  - now rewrite IH.
Qed.

Lemma trimString_length (s : string) (n : nat) :
  String.length (trimString s n)
  = if n <? String.length s then n + 3 else String.length s.
Proof.
  unfold trimString. destruct (Nat.ltb_spec n (String.length s)); [| reflexivity].
  rewrite length_append, substring0_length by lia. reflexivity.
Qed.

(** X3.  For every maximum length, [trimString] applied to its own result
    changes nothing, and the result has [maxLength + 3] characters when the
    string was longer than [maxLength] and the string's own length
    otherwise: a string one or two characters over the maximum comes out
    longer than it went in. *)
Theorem trimString_is_idempotent (s : string) (maxLength : nat) :
  trimString (trimString s maxLength) maxLength = trimString s maxLength
  /\ String.length (trimString s maxLength)
     = (if maxLength <? String.length s then maxLength + 3 else String.length s)
  /\ String.length (trimString s maxLength) <= maxLength + 3.
Proof.
  split; [| split].
  - unfold trimString at 2 3.
    destruct (Nat.ltb_spec maxLength (String.length s)) as [Hlt | Hle].
    + set (p := Js.substring0 s maxLength).
      assert (Hp : String.length p = maxLength)
        by (apply substring0_length; lia).
      unfold trimString. rewrite length_append, Hp.
      replace (maxLength <? maxLength + String.length "...") with true
        by (symmetry; apply Nat.ltb_lt; simpl; lia).
      rewrite <- Hp at 1. now rewrite substring0_append.
    + unfold trimString.
      destruct (Nat.ltb_spec maxLength (String.length s)); [lia | reflexivity].
  - apply trimString_length.
  - rewrite trimString_length.
    destruct (Nat.ltb_spec maxLength (String.length s)); lia.
Qed.

(** X4.  A line of the fenced block is never longer than 105 characters,
    two for the sign and its space and at most 103 for the value, and it is
    empty exactly for a change that is neither added nor removed. *)
Theorem changeLine_is_bounded (c : change) :
  String.length (changeLine c) <= 105
  /\ (changeLine c = EmptyString <-> isEdit c = false).
Proof.
  assert (Hlen : String.length (trimString (value c) 100) <= 100 + 3).
  { rewrite trimString_length.
    destruct (Nat.ltb_spec 100 (String.length (value c))); lia. }
  split.
  - unfold changeLine, defaultMaxLength.
    destruct (added c); [| destruct (removed c)];
      rewrite ?length_append; simpl; lia.
  - unfold changeLine, isEdit.
    destruct (added c), (removed c); simpl; split; intros H;
      try discriminate; reflexivity.
Qed.

(** ** The two fetchers *)

(** X5.  The loop of the Playwright revision run with [retries + 1] does
    what the recursion of the axios revision does with [retries]: the same
    value, after the same page loads, in every world. *)
Theorem loop_matches_recursion (url : string) (retries : nat) (w : world) :
  Playwright.fetchPageContent url (S retries) w
  = Cheerio.fetchPageContent url retries w.
Proof.
  destruct (fetch_attempts RevCheerio url retries w) as (f & n & Hrun & Ha).
  simpl in Hrun. rewrite Hrun.
  pose proof (fetch_of_attempts RevPlaywright url retries w f n Ha) as Hp.
  simpl in Hp. now rewrite Nat.add_1_r in Hp.
Qed.

Lemma afterLoads_net_other (url u : string) (n : nat) (w : world) :
  u <> url -> net (afterLoads url n w) !! u = net w !! u.
Proof.
  intros Hne. revert w. induction n as [|n IH]; intros w; [reflexivity |].
  rewrite afterLoads_S, IH. cbn [afterLoads]. unfold pageLoad.
  destruct (net w !! url) as [[|r rest]|]; simpl; try reflexivity.
  now rewrite lookup_insert_ne by congruence.
Qed.

(** X6.  Neither fetcher throws, whatever its [retries]; each makes page
    loads of its URL and nothing else: between one and [retries + 1] for the
    recursion, which never resolves to [undefined]; at most [retries] for
    the loop, which resolves to [undefined] exactly when [retries] is [0].
    Page loads leave the disk, the spreadsheet, the arrays and the responses
    of other URLs as they were. *)
Theorem fetchers_only_load_pages (url : string) (retries : nat) (w : world) :
  (exists f n,
      Cheerio.fetchPageContent url retries w = (Ret f, afterLoads url n w)
      /\ 1 <= n <= retries + 1 /\ f <> JsUndefined)
  /\ (exists f n,
         Playwright.fetchPageContent url retries w = (Ret f, afterLoads url n w)
         /\ n <= retries /\ (f = JsUndefined <-> retries = 0))
  /\ forall n,
       sameStore w (afterLoads url n w)
       /\ trace (afterLoads url n w) = trace w ++ repeat (EvGet url) n
       /\ forall u, u <> url -> net (afterLoads url n w) !! u = net w !! u.
Proof.
  split; [| split].
  - destruct (cheerio_fetch url retries w) as (f & n & Hrun & Hn & _ & Hlast).
    exists f, n. split; [exact Hrun |]. split; [exact Hn |].
    intros ->. exact Hlast.
  - destruct retries as [|r].
    + exists JsUndefined, 0. repeat split; auto.
    + destruct (playwright_loop url (S r) 0 r w eq_refl)
        as (f & n & Hrun & Hn & _ & Hlast).
      exists f, n. split; [exact Hrun |]. split; [lia |].
      split; [intros -> | discriminate]. contradiction.
  - intros n. split; [apply afterLoads_sameStore |].
    split; [apply afterLoads_trace |].
    intros u Hu. now apply afterLoads_net_other.
Qed.

(** X7.  On a URL whose loads fail, the same [retries] buys one load more
    in the axios revision than in the Playwright one: the recursion
    resolves to [null] after [retries + 1] loads, the loop after [retries]
    loads, to [null], or to [undefined] without a load when [retries] is
    [0]. *)
Theorem same_retries_differ_by_one_load (url : string) (retries : nat) (w : world) :
  (forall i, i < retries + 1 -> loadAt w url i = None) ->
  Cheerio.fetchPageContent url retries w
    = (Ret JsNull, afterLoads url (retries + 1) w)
  /\ Playwright.fetchPageContent url retries w
     = (Ret (if retries =? 0 then JsUndefined else JsNull),
        afterLoads url retries w).
Proof.
  intros Hfail. split.
  - apply (fetch_of_attempts RevCheerio).
    split; [lia |]. split; [intros i Hi; apply Hfail; lia |].
    split; [reflexivity | apply Hfail; lia].
  - destruct retries as [|r]; [reflexivity |].
    pose proof (fetch_of_attempts RevPlaywright url r w JsNull (r + 1)) as H.
    simpl in H. rewrite Nat.add_1_r in H. apply H.
    split; [lia |]. split; [intros i Hi; apply Hfail; lia |].
    split; [lia | apply Hfail; lia].
Qed.

Lemma same_retries_witness :
  fst (Cheerio.fetchPageContent demoUrl 2 deadPage) = Ret JsNull
  /\ trace (snd (Cheerio.fetchPageContent demoUrl 2 deadPage))
     = [EvGet demoUrl; EvGet demoUrl; EvGet demoUrl]
  /\ trace (snd (Playwright.fetchPageContent demoUrl 2 deadPage))
     = [EvGet demoUrl; EvGet demoUrl].
Proof.
  destruct (same_retries_differ_by_one_load demoUrl 2 deadPage) as [Hc Hp].
  - intros i Hi. do 3 (destruct i as [|i]; [reflexivity |]). lia.
  - rewrite Hc, Hp. repeat split.
Defined.

(** ** The detector in every world *)

(** Splits a goal about [detect rev _ url w] into the paths of
    [checkIfNewOrUpdated]. *)
Ltac detect_paths rev url w :=
  rewrite detect_unfold;
  unfold checkIfNewOrUpdatedWith, bind, tryCatch, readFile, writeFile, ret, throw;
  let f := fresh "f" in
  let n := fresh "n" in
  let Ha := fresh "Ha" in
  let pd := fresh "pd" in
  let old := fresh "old" in
  let e := fresh "e" in
  let code := fresh "code" in
  let Hs := fresh "Hs" in
  let Heq := fresh "Heq" in
  let Hw := fresh "Hw" in
  let Hc := fresh "Hc" in
  destruct (fetch_attempts rev url (retryBound rev) w) as (f & n & -> & Ha);
  destruct f as [pd | |];
  [ destruct (stat (afterLoads url n w) (lastContentFile url))
      as [old | e] eqn:Hs; cbn;
    [ destruct (String.eqb (content pd) old) eqn:Heq; cbn;
      [ | destruct (wfault (afterLoads url n w) !! lastContentFile url)
            as [code |] eqn:Hw ]
    | destruct (hasCode e "ENOENT") eqn:Hc; cbn;
      [ destruct (String.eqb (content pd) EmptyString) eqn:Heq; cbn;
        [ | destruct (wfault (afterLoads url n w) !! lastContentFile url)
              as [code |] eqn:Hw ]
      | ] ]
  | | ].

Lemma touchesOnly_loads (url : string) (n : nat) (w : world) :
  touchesOnly url w (afterLoads url n w).
Proof.
  destruct (afterLoads_sameStore url n w) as (Hf & Hr & Hw & Hs & _).
  unfold touchesOnly. rewrite Hf, Hr, Hw, Hs. repeat split; auto.
  intros u Hu. now apply afterLoads_net_other.
Qed.

Lemma touchesOnly_refl (url : string) (w : world) : touchesOnly url w w.
Proof. repeat split; auto. Qed.

Lemma stat_throws (w : world) (path : string) (e : jsError) :
  stat w path = Throw e ->
  exists code, e = SystemError code /\
    (rfault w !! path = Some code
     \/ code = "ENOENT" /\ rfault w !! path = None /\ files w !! path = None).
Proof.
  unfold stat. destruct (rfault w !! path) as [c |].
  - intros H. injection H as <-. eauto.
  - destruct (files w !! path); [discriminate |].
    intros H. injection H as <-. eauto 6.
Qed.

Lemma detect_touchesOnly (rev : revision)
  (diffLines : string -> string -> list change) (url : string) (w : world) :
  touchesOnly url w (snd (detect rev diffLines url w)).
Proof.
  pose proof (fun n => touchesOnly_loads url n w) as Hl.
  detect_paths rev url w;
    destruct (Hl n) as (Hr & Hwf & Hsh & Hfi & Hne);
    unfold touchesOnly; simpl; rewrite ?Hr, ?Hwf, ?Hsh;
    repeat split; auto;
    intros path Hp; rewrite lookup_insert_ne by congruence; auto.
Qed.

(** X8.  Whatever it returns or throws, in every world, the detector
    leaves the faults, the spreadsheet and the three arrays as they were and
    changes no file but the baseline of its own URL; the baseline of every
    other URL reads as before, and so do the pages of every other URL. *)
Theorem detect_touches_only_its_baseline
  (rev : revision) (diffLines : string -> string -> list change)
  (url : string) (w : world) :
  let w' := snd (detect rev diffLines url w) in
  touchesOnly url w w'
  /\ report w' = report w
  /\ forall url', url' <> url ->
       stat w' (lastContentFile url') = stat w (lastContentFile url')
       /\ script w' url' = script w url'.
Proof.
  intros w'.
  pose proof (detect_touchesOnly rev diffLines url w) as Ht.
  split; [exact Ht |]. split; [apply detect_report |].
  intros url' Hne. destruct Ht as (Hr & _ & _ & Hfi & Hnet). split.
  - unfold stat, w'. rewrite Hr, Hfi; [reflexivity |].
    intros H. now apply lastContentFile_inj in H.
  - unfold script, w'. now rewrite Hnet.
Qed.

Lemma detect_rejection_cause
  (rev : revision) (diffLines : string -> string -> list change)
  (url : string) (w w' : world) (e : jsError) :
  detect rev diffLines url w = (Throw e, w') ->
  files w' = files w
  /\ exists code,
       e = SystemError code
       /\ (rfault w !! lastContentFile url = Some code /\ code <> "ENOENT"
           \/ wfault w !! lastContentFile url = Some code).
Proof.
  pose proof (fun n => afterLoads_sameStore url n w) as Hl.
  revert w' e. detect_paths rev url w; intros w' err H;
    try discriminate; injection H as <- <-;
    destruct (Hl n) as (Hf & Hr & Hwf & _);
    (split; [simpl; exact Hf |]).
  - exists code. split; [reflexivity |]. right. now rewrite <- Hwf.
  - exists code. split; [reflexivity |]. right. now rewrite <- Hwf.
  - destruct (stat_throws _ _ _ Hs) as (code & -> & [Hrf | (-> & _)]).
    + exists code. split; [reflexivity |]. left. rewrite <- Hr.
      split; [exact Hrf |]. intros ->. simpl in Hc. discriminate.
    + simpl in Hc. discriminate.
Qed.

(** X9.  For a URL that [encodeURIComponent] accepts, as every string of
    the model is, the detector rejects only with a file-system error of its
    own baseline: the error of the read, whose code is not [ENOENT], or the
    error of the write. *)
Theorem detect_rejects_only_on_disk_errors
  (rev : revision) (diffLines : string -> string -> list change)
  (url : string) (w w' : world) (e : jsError) :
  detect rev diffLines url w = (Throw e, w') ->
  exists code,
    e = SystemError code
    /\ (rfault w !! lastContentFile url = Some code /\ code <> "ENOENT"
        \/ wfault w !! lastContentFile url = Some code).
Proof.
  intros H. now destruct (detect_rejection_cause _ _ _ _ _ _ H) as [_ Hc].
Qed.

Lemma detect_rejects_witness :
  exists code,
    fst (detect RevCheerio LineDiff.diffLines demoUrl lockedPage)
      = Throw (SystemError code)
    /\ rfault lockedPage !! demoFile = Some code.
Proof.
  destruct (detect_rejects_only_on_disk_errors RevCheerio LineDiff.diffLines
              demoUrl lockedPage
              (snd (detect RevCheerio LineDiff.diffLines demoUrl lockedPage))
              (SystemError "EACCES") eq_refl)
    as (code & Hcode & [[Hr _] | Hw]).
  - exists code. split; [now rewrite <- Hcode | exact Hr].
  - discriminate Hw.
Defined.

(** X10.  When the write of a changed page throws, the detector rejects
    with the error of the write, after the read and the attempted write; the
    task rejects with it and files the URL nowhere, not under [errors]
    either.  What the baseline holds after the failed write is left open. *)
Theorem write_error_rejects_the_task
  (diffLines : string -> string -> list change)
  (rev : revision) (url : string) (w : world)
  (pd : pageData) (n : nat) (old code : string) :
  Attempts w url (retryBound rev) (Snapshot pd) n ->
  stat w (lastContentFile url) = Ret old ->
  content pd <> old ->
  wfault w !! lastContentFile url = Some code ->
  fst (detect rev diffLines url w) = Throw (SystemError code)
  /\ fst (task rev diffLines url w) = Throw (SystemError code)
  /\ report (snd (task rev diffLines url w)) = report w
  /\ trace (snd (task rev diffLines url w))
     = trace w ++ repeat (EvGet url) n
       ++ [EvRead (lastContentFile url);
           EvWrite (lastContentFile url) (content pd)].
Proof.
  intros Ha Hs Hne Hw.
  pose proof (detect_write_fails diffLines rev url w pd n Ha old code Hs Hne Hw)
    as Hd.
  rewrite task_unfold, Hd. simpl.
  split; [reflexivity |]. split; [reflexivity |].
  split; [apply report_afterLoads |].
  rewrite afterLoads_trace, <- !app_assoc. reflexivity.
Qed.

Lemma write_error_witness :
  fst (task RevPlaywright LineDiff.diffLines demoUrl readOnlyPage)
    = Throw (SystemError "EROFS")
  /\ report (snd (task RevPlaywright LineDiff.diffLines demoUrl readOnlyPage))
     = report readOnlyPage.
Proof.
  destruct (write_error_rejects_the_task LineDiff.diffLines RevPlaywright
              demoUrl readOnlyPage (PageData "new" "T") 1 "old" "EROFS")
    as (_ & H2 & H3 & _);
    [script_attempts | reflexivity | discriminate | reflexivity |].
  split; assumption.
Defined.

(** X11.  A URL without baseline whose page has text comes back flagged
    both [updated] and [isNew]; the task files it under [newUrls] with its
    title and under neither [updates] nor [errors], and the baseline file
    then holds the text. *)
Theorem new_page_with_text_is_filed_as_new_only
  (diffLines : string -> string -> list change)
  (rev : revision) (url : string) (w : world) (pd : pageData) (n : nat) :
  Attempts w url (retryBound rev) (Snapshot pd) n ->
  stat w (lastContentFile url) = Throw (SystemError "ENOENT") ->
  content pd <> EmptyString ->
  wfault w !! lastContentFile url = None ->
  exists r w1 w2,
    detect rev diffLines url w = (Ret r, w1)
    /\ updated r = true /\ isNew r = true /\ error r = false
    /\ resultTitle r = Some (title pd)
    /\ files w1 !! lastContentFile url = Some (content pd)
    /\ task rev diffLines url w = (Ret tt, w2)
    /\ newUrls w2 = newUrls w ++ [NewEntry url (Some (title pd))]
    /\ updates w2 = updates w
    /\ errors w2 = errors w.
Proof.
  intros Ha Hs Hne Hw.
  destruct (first_observation_is_new diffLines rev url w pd n Ha Hs Hne Hw)
    as (Hd & _ & Hf & Ht).
  destruct (arrays_afterLoads url n w) as (Hu & _ & He).
  eexists _, _, _. split; [exact Hd |].
  do 4 (split; [reflexivity |]). split; [exact Hf |].
  split; [exact Ht |]. split; [reflexivity |].
  split; [exact Hu | exact He].
Qed.

Lemma new_page_with_text_witness :
  exists w2,
    task RevCheerio LineDiff.diffLines demoUrl freshPage = (Ret tt, w2)
    /\ newUrls w2 = [NewEntry demoUrl (Some "T")]
    /\ updates w2 = [].
Proof.
  destruct (new_page_with_text_is_filed_as_new_only LineDiff.diffLines
              RevCheerio demoUrl freshPage (PageData "Hello" "T") 1)
    as (r & w1 & w2 & _ & _ & _ & _ & _ & _ & Ht & Hn & Hu & _);
    [script_attempts | reflexivity | discriminate | reflexivity |].
  exists w2. split; [exact Ht |]. split; [exact Hn | exact Hu].
Defined.

(** ** Tasks *)

Lemma posted_emit (e : event) (w : world) :
  posted (emit e w)
  = posted w ++ match e with EvPost t => [t] | _ => [] end.
Proof.
  unfold posted. simpl. rewrite omap_app. simpl. now destruct e.
Qed.

Lemma posted_afterLoads (url : string) (n : nat) (w : world) :
  posted (afterLoads url n w) = posted w.
Proof.
  unfold posted. rewrite afterLoads_trace, omap_app.
  assert (H : omap (fun e => match e with EvPost t => Some t | _ => None end)
                   (repeat (EvGet url) n) = []).
  { induction n as [|n IH]; [reflexivity | exact IH]. }
  rewrite H. apply app_nil_r.
Qed.

Lemma detect_posted (rev : revision)
  (diffLines : string -> string -> list change) (url : string) (w : world) :
  posted (snd (detect rev diffLines url w)) = posted w.
Proof.
  pose proof (fun n => posted_afterLoads url n w) as Hl.
  detect_paths rev url w; specialize (Hl n); unfold posted in *; simpl;
    rewrite ?omap_app; simpl; rewrite ?app_nil_r; exact Hl.
Qed.

(** What [collect] changes: one of the three arrays, by one entry that
    names the URL, or nothing. *)
Lemma collect_effect (url : string) (r : result) (w : world) :
  exists w',
    collect url r w = (Ret tt, w')
    /\ net w' = net w /\ files w' = files w /\ rfault w' = rfault w
    /\ wfault w' = wfault w /\ sheet w' = sheet w /\ trace w' = trace w
    /\ (report w' = report w
        \/ report w' = (updates w, newUrls w, errors w ++ [url])
        \/ report w' = (updates w,
                        newUrls w ++ [NewEntry url (resultTitle r)], errors w)
        \/ updated r = true /\ error r = false /\
           report w' = (updates w ++ [UpdateEntry url (resultTitle r) (changes r)],
                        newUrls w, errors w)).
Proof.
  unfold collect, pushError, pushNewUrl, pushUpdate, ret.
  destruct (error r) eqn:He; [eexists; repeat split; auto |].
  destruct (isNew r); [eexists; repeat split; auto |].
  destruct (updated r) eqn:Hu; eexists; repeat split; auto 10.
Qed.

Lemma task_touchesOnly (rev : revision)
  (diffLines : string -> string -> list change) (url : string) (w : world) :
  touchesOnly url w (snd (task rev diffLines url w)).
Proof.
  rewrite task_unfold.
  pose proof (detect_touchesOnly rev diffLines url w) as Ht.
  destruct (detect rev diffLines url w) as [[r | e] w1]; [| exact Ht].
  destruct (collect_effect url r w1)
    as (w' & -> & Hn & Hf & Hr & Hw & Hs & _).
  simpl in *. unfold touchesOnly. now rewrite Hn, Hf, Hr, Hw, Hs.
Qed.

Lemma task_posted (rev : revision)
  (diffLines : string -> string -> list change) (url : string) (w : world) :
  posted (snd (task rev diffLines url w)) = posted w.
Proof.
  rewrite task_unfold.
  pose proof (detect_posted rev diffLines url w) as Hp.
  destruct (detect rev diffLines url w) as [[r | e] w1]; [| exact Hp].
  destruct (collect_effect url r w1) as (w' & -> & _ & _ & _ & _ & _ & Ht & _).
  simpl in *. unfold posted in *. now rewrite Ht.
Qed.

Lemma task_filed (rev : revision)
  (diffLines : string -> string -> list change) (url : string) (w : world) :
  let w' := snd (task rev diffLines url w) in
  filedCount w' <= filedCount w + 1
  /\ (forall u, u ∈ filedUrls w' -> u ∈ filedUrls w \/ u = url)
  /\ (Forall entryComplete (updates w) -> Forall entryComplete (updates w')).
Proof.
  rewrite task_unfold.
  pose proof (detect_report rev diffLines url w) as Hrep.
  destruct (detect rev diffLines url w) as [[r | e] w1] eqn:Hd; simpl in Hrep;
    unfold report in Hrep; injection Hrep as Hu Hn He.
  - rewrite detect_unfold in Hd. apply detector_result_shape in Hd.
    destruct (collect_effect url r w1) as (w' & -> & _ & _ & _ & _ & _ & _ & Hc).
    simpl. unfold filedCount, filedUrls, report in *.
    destruct Hc as [Hc | [Hc | [Hc | (Hup & Her & Hc)]]];
      injection Hc as -> -> ->; rewrite Hu, Hn, He;
      rewrite ?map_app, ?length_app; simpl;
      (split; [lia |]); (split; [| intros Hall]).
    + auto.
    + exact Hall.
    + intros u Hin. rewrite !elem_of_app in *.
      rewrite list_elem_of_singleton in Hin. tauto.
    + exact Hall.
    + intros u Hin. rewrite !elem_of_app in *.
      rewrite list_elem_of_singleton in Hin. tauto.
    + exact Hall.
    + intros u Hin. rewrite !elem_of_app in *.
      rewrite list_elem_of_singleton in Hin. tauto.
    + apply Forall_app. split; [exact Hall |].
      constructor; [| constructor]. unfold entryComplete. simpl.
      destruct Hd as [(_ & _ & old & pd & -> & ->) | (Hd & _)];
        [| congruence].
      split; [eauto |]. eexists. split; [reflexivity |].
      apply Forall_forall. intros c Hc. now apply list_elem_of_filter in Hc.
  - simpl. unfold filedCount, filedUrls. rewrite Hu, Hn, He.
    split; [lia |]. split; auto.
Qed.

Lemma task_healthy (rev : revision)
  (diffLines : string -> string -> list change) (url : string) (w : world) :
  noFaults w -> fst (task rev diffLines url w) = Ret tt.
Proof.
  intros [Hr Hw]. rewrite task_unfold.
  destruct (detect rev diffLines url w) as [[r | e] w1] eqn:Hd.
  - destruct (collect_effect url r w1) as (w' & -> & _). reflexivity.
  - apply detect_rejection_cause in Hd.
    destruct Hd as (_ & code & _ & [[H _] | H]);
      rewrite ?Hr, ?Hw, lookup_empty in H; discriminate.
Qed.

Lemma task_rejection_cause (rev : revision)
  (diffLines : string -> string -> list change) (url : string) (w : world)
  (e : jsError) :
  fst (task rev diffLines url w) = Throw e ->
  exists code,
    e = SystemError code
    /\ (rfault w !! lastContentFile url = Some code
        \/ wfault w !! lastContentFile url = Some code).
Proof.
  rewrite task_unfold.
  destruct (detect rev diffLines url w) as [[r | e'] w1] eqn:Hd.
  - destruct (collect_effect url r w1) as (w' & -> & _). discriminate.
  - simpl. intros H. injection H as ->.
    apply detect_rejection_cause in Hd.
    destruct Hd as (_ & code & -> & [[H _] | H]); eauto.
Qed.

(** ** Joining *)

(** A property of the tasks of a list of URLs, run in order, follows from
    its step. *)
Lemma settleAll_steps (rev : revision)
  (diffLines : string -> string -> list change)
  (R : list string -> world -> list (completion unit) -> world -> Prop) :
  (forall w, R [] w [] w) ->
  (forall url urls w cs w',
      R urls (snd (task rev diffLines url w)) cs w' ->
      R (url :: urls) w (fst (task rev diffLines url w) :: cs) w') ->
  forall urls w,
  exists cs w',
    settleAll (map (task rev diffLines) urls) w = (Ret cs, w')
    /\ R urls w cs w'.
Proof.
  intros Hnil Hcons urls. induction urls as [|url urls IH]; intros w.
  - exists [], w. split; [reflexivity | apply Hnil].
  - destruct (IH (snd (task rev diffLines url w))) as (cs & w' & Hrun & HR).
    exists (fst (task rev diffLines url w) :: cs), w'.
    split; [| now apply Hcons].
    simpl. unfold bind, settle.
    destruct (task rev diffLines url w) as [c w1]. simpl in *.
    now rewrite Hrun.
Qed.

(** Everything the later properties need of the tasks of a run. *)
Lemma settleAll_facts (rev : revision)
  (diffLines : string -> string -> list change) (urls : list string) (w : world) :
  exists cs w',
    settleAll (map (task rev diffLines) urls) w = (Ret cs, w')
    /\ rfault w' = rfault w /\ wfault w' = wfault w /\ sheet w' = sheet w
    /\ posted w' = posted w
    /\ (forall path, (forall u, u ∈ urls -> path <> lastContentFile u) ->
                     files w' !! path = files w !! path)
    /\ filedCount w' <= filedCount w + length urls
    /\ (forall u, u ∈ filedUrls w' -> u ∈ filedUrls w \/ u ∈ urls)
    /\ (Forall entryComplete (updates w) -> Forall entryComplete (updates w'))
    /\ (noFaults w -> firstRejection cs = None)
    /\ (forall e, firstRejection cs = Some e ->
          exists code path,
            e = SystemError code
            /\ (rfault w !! path = Some code \/ wfault w !! path = Some code)).
Proof.
  revert urls w.
  apply (settleAll_steps rev diffLines
    (fun urls w cs w' =>
       rfault w' = rfault w /\ wfault w' = wfault w /\ sheet w' = sheet w
       /\ posted w' = posted w
       /\ (forall path, (forall u, u ∈ urls -> path <> lastContentFile u) ->
                        files w' !! path = files w !! path)
       /\ filedCount w' <= filedCount w + length urls
       /\ (forall u, u ∈ filedUrls w' -> u ∈ filedUrls w \/ u ∈ urls)
       /\ (Forall entryComplete (updates w) -> Forall entryComplete (updates w'))
       /\ (noFaults w -> firstRejection cs = None)
       /\ (forall e, firstRejection cs = Some e ->
             exists code path,
               e = SystemError code
               /\ (rfault w !! path = Some code \/ wfault w !! path = Some code)))).
  - intros w. repeat split; auto; try (simpl; lia); discriminate.
  - intros url urls w cs w'
      (Hr & Hw & Hs & Hp & Hf & Hc & Hu & He & Hh & Hj).
    destruct (task_touchesOnly rev diffLines url w) as (Tr & Tw & Ts & Tf & _).
    destruct (task_filed rev diffLines url w) as (Fc & Fu & Fe).
    rewrite Tr in Hr, Hj. rewrite Tw in Hw, Hj. rewrite Ts in Hs.
    rewrite task_posted in Hp.
    split; [exact Hr |]. split; [exact Hw |]. split; [exact Hs |].
    split; [exact Hp |]. split; [| split; [| split; [| split; [| split]]]].
    + intros path Hpath. rewrite Hf, Tf; [reflexivity | |].
      * apply Hpath. constructor.
      * intros u Hin. apply Hpath. now constructor.
    + simpl. lia.
    + intros u Hin. destruct (Hu u Hin) as [H | H].
      * destruct (Fu u H) as [H' | ->]; [now left | right; constructor].
      * right. now constructor.
    + intros Hall. apply He, Fe, Hall.
    + intros Hn. pose proof (task_healthy rev diffLines url w Hn) as Ht.
      simpl. rewrite Ht. apply Hh.
      destruct Hn as [Hn1 Hn2]. split; congruence.
    + intros e. simpl.
      destruct (fst (task rev diffLines url w)) as [[] | e'] eqn:Ht.
      * apply Hj.
      * intros H. injection H as ->.
        destruct (task_rejection_cause rev diffLines url w e Ht)
          as (code & -> & Hcause).
        exists code, (lastContentFile url). split; [reflexivity | exact Hcause].
Qed.

(** ** Sending and whole runs *)

Lemma sendAll_posts (w : world) :
  Forall entryComplete (updates w) ->
  exists msgs w',
    sendAll w = (Ret tt, w')
    /\ posted w' = posted w ++ msgs
    /\ length msgs
       = nonEmpty (updates w) + nonEmpty (newUrls w) + nonEmpty (errors w)
    /\ sameStore w w' /\ net w' = net w.
Proof.
  intros Hall.
  assert (Hc : updatesComplete w).
  { unfold updatesComplete. eapply Forall_impl; [exact Hall |].
    intros e (_ & hunks & -> & _). eauto. }
  unfold sendAll, bind, sendUpdateNotification, sendNewUrlNotification,
    sendErrorNotification, nonEmpty, post, ret.
  destruct (traverse_updateBlock _ Hc) as [blocks ->].
  destruct (length (updates w) =? 0), (length (newUrls w) =? 0),
    (length (errors w) =? 0);
    eexists _, _; (split; [reflexivity |]);
    rewrite ?posted_emit, <- ?app_assoc; simpl;
    (split; [try reflexivity; now rewrite app_nil_r |]);
    repeat split.
Qed.

Lemma run_unfold (rev : revision)
  (diffLines : string -> string -> list change) (w : world) :
  run rev diffLines w =
  match sheet w with
  | None => (Throw SourceUnavailable, emit (EvMkdir contentDir) w)
  | Some urls =>
      match settleAll (map (task rev diffLines) urls) (started w) with
      | (Ret cs, w1) =>
          match rev, firstRejection cs with
          | RevCheerio, Some e => (Throw e, w1)
          | _, _ => sendAll w1
          end
      | (Throw e, w1) => (Throw e, w1)
      end
  end.
Proof.
  destruct rev; unfold run, Cheerio.checkForUpdates, Playwright.checkForUpdates,
    promiseAll, promiseAllSettled, bind, ensureContentDirExists,
    getUrlsFromSheet, newArrays; simpl;
    (destruct (sheet w) as [urls |]; [| reflexivity]); unfold started.
  - change (map (Cheerio.updatePromise diffLines) urls)
      with (map (task RevCheerio diffLines) urls).
    destruct (settleAll _ _) as [[cs | e] w1]; [| reflexivity].
    destruct (firstRejection cs); reflexivity.
  - change (map (Playwright.updatePromise diffLines) urls)
      with (map (task RevPlaywright diffLines) urls).
    destruct (settleAll _ _) as [[cs | e] w1]; reflexivity.
Qed.

Lemma started_facts (w : world) :
  rfault (started w) = rfault w /\ wfault (started w) = wfault w
  /\ sheet (started w) = sheet w /\ files (started w) = files w
  /\ net (started w) = net w /\ posted (started w) = posted w
  /\ filedCount (started w) = 0 /\ filedUrls (started w) = []
  /\ updates (started w) = [].
Proof.
  unfold started. repeat split.
  change (posted (emit (EvMkdir contentDir) w) = posted w).
  rewrite posted_emit. apply app_nil_r.
Qed.

(** The outcome of a run whose URL list was read, with the facts of its
    tasks. *)
Lemma run_outcome (rev : revision)
  (diffLines : string -> string -> list change) (w : world) (urls : list string) :
  sheet w = Some urls ->
  exists cs w1,
    settleAll (map (task rev diffLines) urls) (started w) = (Ret cs, w1)
    /\ rfault w1 = rfault w /\ wfault w1 = wfault w /\ sheet w1 = sheet w
    /\ posted w1 = posted w
    /\ (forall path, (forall u, u ∈ urls -> path <> lastContentFile u) ->
                     files w1 !! path = files w !! path)
    /\ filedCount w1 <= length urls
    /\ (forall u, u ∈ filedUrls w1 -> u ∈ urls)
    /\ Forall entryComplete (updates w1)
    /\ (noFaults w -> firstRejection cs = None)
    /\ (forall e, firstRejection cs = Some e ->
          exists code path,
            e = SystemError code
            /\ (rfault w !! path = Some code \/ wfault w !! path = Some code))
    /\ run rev diffLines w =
       match rev, firstRejection cs with
       | RevCheerio, Some e => (Throw e, w1)
       | _, _ => sendAll w1
       end.
Proof.
  intros Hsheet.
  destruct (started_facts w) as (Sr & Sw & Ss & Sf & _ & Sp & Sc & Su & Sup).
  destruct (settleAll_facts rev diffLines urls (started w))
    as (cs & w1 & Hrun & Hr & Hw & Hs & Hp & Hf & Hc & Hu & He & Hh & Hj).
  exists cs, w1. split; [exact Hrun |].
  split; [congruence |]. split; [congruence |]. split; [congruence |].
  split; [congruence |].
  split; [intros path Hpath; now rewrite Hf, Sf |].
  split; [lia |]. split.
  { intros u Hin. destruct (Hu u Hin) as [H | H]; [| exact H].
    rewrite Su in H. now apply elem_of_nil in H. }
  split; [apply He; rewrite Sup; constructor |].
  split; [intros [H1 H2]; apply Hh; split; congruence |].
  split; [intros e H; rewrite <- Sr, <- Sw; now apply Hj |].
  rewrite run_unfold, Hsheet, Hrun. reflexivity.
Qed.

(** X12.  In the axios revision, on a disk where no read and no write
    throws and for URLs that [encodeURIComponent] accepts, as every string
    of the model is, [Promise.all] over the tasks of any URL list resolves:
    pages that fail to load, however many, do not make the join reject. *)
Theorem axios_join_resolves_on_healthy_disk
  (diffLines : string -> string -> list change)
  (urls : list string) (w : world) :
  noFaults w ->
  exists w',
    promiseAll (map (Cheerio.updatePromise diffLines) urls) w = (Ret tt, w')
    /\ noFaults w'.
Proof.
  intros Hn.
  destruct (settleAll_facts RevCheerio diffLines urls w)
    as (cs & w' & Hrun & Hr & Hw & _ & _ & _ & _ & _ & _ & Hh & _).
  exists w'. split.
  - unfold promiseAll, bind.
    change (map (Cheerio.updatePromise diffLines) urls)
      with (map (task RevCheerio diffLines) urls).
    now rewrite Hrun, (Hh Hn).
  - destruct Hn as [H1 H2]. split; congruence.
Qed.

Lemma axios_join_witness :
  exists w',
    promiseAll (map (Cheerio.updatePromise LineDiff.diffLines)
                    [demoUrl; otherUrl; thirdUrl]) threeUrls
    = (Ret tt, w').
Proof.
  destruct (axios_join_resolves_on_healthy_disk LineDiff.diffLines
              [demoUrl; otherUrl; thirdUrl] threeUrls) as (w' & H & _).
  - split; reflexivity.
  - now exists w'.
Defined.

(** X14.  A run that resolves has posted one message for each of
    [updates], [newUrls] and [errors] that holds an entry, and none for an
    empty one: three messages at most. *)
Theorem run_posts_once_per_filled_array
  (rev : revision) (diffLines : string -> string -> list change)
  (w w' : world) :
  run rev diffLines w = (Ret tt, w') ->
  exists msgs,
    posted w' = posted w ++ msgs
    /\ length msgs
       = nonEmpty (updates w') + nonEmpty (newUrls w') + nonEmpty (errors w')
    /\ length msgs <= 3.
Proof.
  destruct (sheet w) as [urls |] eqn:Hsheet;
    [| rewrite run_unfold, Hsheet; discriminate].
  destruct (run_outcome rev diffLines w urls Hsheet)
    as (cs & w1 & _ & _ & _ & _ & Hp & _ & _ & _ & Hall & _ & _ & ->).
  destruct (sendAll_posts w1 Hall)
    as (msgs & w2 & Hsend & Hpost & Hlen & (_ & _ & _ & _ & Hrep) & _).
  assert (Hgoal : sendAll w1 = (Ret tt, w') ->
    exists msgs, posted w' = posted w ++ msgs
      /\ length msgs
         = nonEmpty (updates w') + nonEmpty (newUrls w') + nonEmpty (errors w')
      /\ length msgs <= 3).
  { rewrite Hsend. intros H. injection H as <-.
    unfold report in Hrep. injection Hrep as -> -> ->.
    exists msgs. rewrite Hpost, Hp. split; [reflexivity |].
    split; [exact Hlen |]. rewrite Hlen. unfold nonEmpty.
    destruct (_ =? 0), (_ =? 0), (_ =? 0); simpl; lia. }
  destruct rev, (firstRejection cs); try exact Hgoal; discriminate.
Qed.

Lemma run_posts_witness :
  exists msgs,
    posted (snd (run RevPlaywright LineDiff.diffLines threeUrls))
    = posted threeUrls ++ msgs
    /\ length msgs <= 3.
Proof.
  destruct (run_posts_once_per_filled_array RevPlaywright LineDiff.diffLines
              threeUrls (snd (run RevPlaywright LineDiff.diffLines threeUrls)))
    as (msgs & H1 & _ & H3); [vm_compute; reflexivity |].
  exists msgs. split; assumption.
Defined.

Lemma occurrences_app (u : string) (l k : list string) :
  occurrences u (l ++ k) = occurrences u l + occurrences u k.
Proof. apply count_occ_app. Qed.

Lemma occurrences_filed (u : string) (w : world) :
  occurrences u (filedUrls w)
  = occurrences u (map u_url (updates w))
    + occurrences u (map n_url (newUrls w))
    + occurrences u (errors w).
Proof. unfold filedUrls. rewrite !occurrences_app. lia. Qed.

(** A task files its own URL, once at most. *)
Lemma task_occurrences (rev : revision)
  (diffLines : string -> string -> list change) (url u : string) (w : world) :
  occurrences u (filedUrls (snd (task rev diffLines url w)))
  <= occurrences u (filedUrls w) + occurrences u [url].
Proof.
  rewrite task_unfold.
  pose proof (detect_report rev diffLines url w) as Hrep.
  destruct (detect rev diffLines url w) as [[r | e] w1]; simpl in Hrep;
    unfold report in Hrep; injection Hrep as Hu Hn He.
  - destruct (collect_effect url r w1) as (w' & -> & _ & _ & _ & _ & _ & _ & Hc).
    simpl. rewrite !occurrences_filed. unfold report in Hc.
    destruct Hc as [Hc | [Hc | [Hc | (_ & _ & Hc)]]];
      injection Hc as -> -> ->; rewrite Hu, Hn, He;
      rewrite ?map_app, ?occurrences_app; simpl; lia.
  - simpl. rewrite !occurrences_filed, Hu, Hn, He. lia.
Qed.

Lemma settleAll_occurrences (rev : revision)
  (diffLines : string -> string -> list change) (urls : list string) (w : world) :
  exists cs w',
    settleAll (map (task rev diffLines) urls) w = (Ret cs, w')
    /\ forall u, occurrences u (filedUrls w')
                 <= occurrences u (filedUrls w) + occurrences u urls.
Proof.
  revert urls w.
  apply (settleAll_steps rev diffLines
    (fun urls w cs w' =>
       forall u, occurrences u (filedUrls w')
                 <= occurrences u (filedUrls w) + occurrences u urls)).
  - intros w u. lia.
  - intros url urls w cs w' IH u.
    pose proof (task_occurrences rev diffLines url u w) as Ht.
    specialize (IH u).
    change (url :: urls) with ([url] ++ urls). rewrite occurrences_app. lia.
Qed.

(** X15.  After a run over a URL list, whether it resolved or rejected,
    each URL has at most as many entries in [updates], [newUrls] and
    [errors] together as the list has rows for it: one entry at most for a
    URL listed once, none for a URL that is not listed.  Hence the arrays
    hold at most as many entries as the list has rows; and every entry of
    [updates] carries its title and hunks that are all added or removed. *)
Theorem run_files_each_url_at_most_once
  (rev : revision) (diffLines : string -> string -> list change)
  (w : world) (urls : list string) :
  sheet w = Some urls ->
  let w' := snd (run rev diffLines w) in
  (forall u, occurrences u (filedUrls w') <= occurrences u urls)
  /\ filedCount w' <= length urls
  /\ (forall u, u ∈ filedUrls w' -> u ∈ urls)
  /\ Forall entryComplete (updates w').
Proof.
  intros Hsheet w'. unfold w'.
  destruct (run_outcome rev diffLines w urls Hsheet)
    as (cs & w1 & Hrun & _ & _ & _ & _ & _ & Hc & Hu & Hall & _ & _ & ->).
  destruct (settleAll_occurrences rev diffLines urls (started w))
    as (cs' & w1' & Hrun' & Hocc).
  rewrite Hrun in Hrun'. injection Hrun' as <- <-.
  assert (Hocc1 : forall u, occurrences u (filedUrls w1) <= occurrences u urls).
  { intros u. specialize (Hocc u).
    destruct (started_facts w) as (_ & _ & _ & _ & _ & _ & _ & Hs & _).
    rewrite Hs in Hocc. simpl in Hocc. exact Hocc. }
  destruct (sendAll_posts w1 Hall)
    as (msgs & w2 & Hsend & _ & _ & (_ & _ & _ & _ & Hrep) & _).
  assert (Hsent : (forall u, occurrences u (filedUrls w2) <= occurrences u urls)
                  /\ filedCount w2 <= length urls
                  /\ (forall u, u ∈ filedUrls w2 -> u ∈ urls)
                  /\ Forall entryComplete (updates w2)).
  { unfold filedCount, filedUrls, report in *.
    injection Hrep as -> -> ->. auto. }
  destruct rev, (firstRejection cs); rewrite ?Hsend; simpl; auto.
Qed.

Lemma run_files_witness :
  occurrences demoUrl
    (filedUrls (snd (run RevCheerio LineDiff.diffLines threeUrls))) <= 1.
Proof.
  apply (run_files_each_url_at_most_once RevCheerio LineDiff.diffLines
           threeUrls [demoUrl; otherUrl; thirdUrl] eq_refl).
Defined.

(** X16.  A run starts from fresh arrays: what [updates], [newUrls] and
    [errors] held before has no part in what the run does. *)
Theorem run_starts_from_fresh_arrays
  (rev : revision) (diffLines : string -> string -> list change)
  (w : world) (urls : list string)
  (us : list updateEntry) (ns : list newEntry) (es : list string) :
  sheet w = Some urls ->
  run rev diffLines (setUpdates us (setNewUrls ns (setErrors es w)))
  = run rev diffLines w.
Proof.
  intros Hsheet. rewrite !run_unfold. simpl. rewrite Hsheet. reflexivity.
Qed.

Lemma run_fresh_arrays_witness :
  run RevPlaywright LineDiff.diffLines
      (setUpdates [] (setNewUrls [] (setErrors [demoUrl] threeUrls)))
  = run RevPlaywright LineDiff.diffLines threeUrls.
Proof.
  apply (run_starts_from_fresh_arrays RevPlaywright LineDiff.diffLines
           threeUrls [demoUrl; otherUrl; thirdUrl]).
  reflexivity.
Defined.

(** X17.  A run, whether it resolves or rejects, leaves every file that is
    not the baseline of a listed URL as it was, and the faults and the
    spreadsheet as well. *)
Theorem run_writes_only_listed_baselines
  (rev : revision) (diffLines : string -> string -> list change)
  (w : world) (urls : list string) :
  sheet w = Some urls ->
  let w' := snd (run rev diffLines w) in
  rfault w' = rfault w /\ wfault w' = wfault w /\ sheet w' = sheet w
  /\ forall path,
       (forall u, u ∈ urls -> path <> lastContentFile u) ->
       files w' !! path = files w !! path.
Proof.
  intros Hsheet w'. unfold w'.
  destruct (run_outcome rev diffLines w urls Hsheet)
    as (cs & w1 & _ & Hr & Hw & Hs & _ & Hf & _ & _ & Hall & _ & _ & ->).
  destruct (sendAll_posts w1 Hall)
    as (msgs & w2 & Hsend & _ & _ & (Sf & Sr & Sw & Ss & _) & _).
  assert (Hsent : rfault w2 = rfault w /\ wfault w2 = wfault w
                  /\ sheet w2 = sheet w
                  /\ forall path,
                       (forall u, u ∈ urls -> path <> lastContentFile u) ->
                       files w2 !! path = files w !! path).
  { rewrite Sf, Sr, Sw, Ss. auto. }
  destruct rev, (firstRejection cs); rewrite ?Hsend; simpl; auto.
Qed.

Lemma run_writes_witness :
  files (snd (run RevCheerio LineDiff.diffLines threeUrls)) !! "notes.txt"
  = files threeUrls !! "notes.txt".
Proof.
  destruct (run_writes_only_listed_baselines RevCheerio LineDiff.diffLines
              threeUrls [demoUrl; otherUrl; thirdUrl] eq_refl)
    as (_ & _ & _ & H).
  apply H. intros u Hu.
  repeat (apply elem_of_cons in Hu; destruct Hu as [-> | Hu]);
    [discriminate | discriminate | discriminate |].
  now apply elem_of_nil in Hu.
Defined.

(** X18.  When the URL list cannot be read the run rejects straight after
    making the directory: no page is loaded, no file read or written,
    nothing posted, and the arrays are not even reset. *)
Theorem unreadable_list_aborts_before_any_fetch
  (rev : revision) (diffLines : string -> string -> list change) (w : world) :
  sheet w = None ->
  run rev diffLines w
  = (Throw SourceUnavailable, emit (EvMkdir contentDir) w).
Proof.
  intros Hsheet. now rewrite run_unfold, Hsheet.
Qed.

Lemma unreadable_list_witness :
  run RevCheerio LineDiff.diffLines noSheet
  = (Throw SourceUnavailable, emit (EvMkdir contentDir) noSheet).
Proof.
  apply (unreadable_list_aborts_before_any_fetch RevCheerio). reflexivity.
Defined.

(** X19.  A run over an empty URL list resolves with three empty arrays
    and without a call to the network, the disk or the webhook. *)
Theorem empty_list_posts_nothing
  (rev : revision) (diffLines : string -> string -> list change) (w : world) :
  sheet w = Some [] ->
  run rev diffLines w = (Ret tt, started w)
  /\ report (started w) = ([], [], [])
  /\ trace (started w) = trace w ++ [EvMkdir contentDir].
Proof.
  intros Hsheet. rewrite run_unfold, Hsheet.
  split; [destruct rev; reflexivity |]. split; reflexivity.
Qed.

Lemma empty_list_witness :
  run RevPlaywright LineDiff.diffLines emptySheet = (Ret tt, started emptySheet).
Proof.
  apply (empty_list_posts_nothing RevPlaywright). reflexivity.
Defined.

(** ** Order of the calls, and the two revisions compared *)

(** Closes a goal on the trace of one path of the detector with the given
    calls after the page loads. *)
Ltac trace_tail url n tail :=
  exists n, tail;
  split;
  [ simpl; rewrite afterLoads_trace, <- ?app_assoc, ?app_nil_r; reflexivity
  | eauto ].

(** X20.  In every world the detector calls the outside in one order: the
    page loads of its URL first, then at most one read of its baseline, then
    at most one write of it, and never a write without the read before. *)
Theorem detect_loads_then_reads_then_writes
  (rev : revision) (diffLines : string -> string -> list change)
  (url : string) (w : world) :
  exists n tail,
    trace (snd (detect rev diffLines url w))
    = trace w ++ repeat (EvGet url) n ++ tail
    /\ (tail = []
        \/ tail = [EvRead (lastContentFile url)]
        \/ exists data,
             tail = [EvRead (lastContentFile url);
                     EvWrite (lastContentFile url) data]).
Proof.
  detect_paths rev url w;
    first
      [ trace_tail url n (@nil event)
      | trace_tail url n [EvRead (lastContentFile url)]
      | trace_tail url n [EvRead (lastContentFile url);
                          EvWrite (lastContentFile url) (content pd)] ].
Qed.

Lemma Attempts_more (w : world) (url : string) (bound bound' : nat)
  (pd : pageData) (n : nat) :
  bound <= bound' ->
  Attempts w url bound (Snapshot pd) n ->
  Attempts w url bound' (Snapshot pd) n.
Proof.
  intros Hle (Hn & Hfail & Hlast).
  split; [lia |]. split; assumption.
Qed.

Lemma detector_same_fetch
  (diffLines : string -> string -> list change)
  (fetch1 fetch2 : string -> M fetched) (url : string) (w : world) :
  fetch1 url w = fetch2 url w ->
  checkIfNewOrUpdatedWith diffLines fetch1 url w
  = checkIfNewOrUpdatedWith diffLines fetch2 url w.
Proof.
  intros H. unfold checkIfNewOrUpdatedWith, bind. now rewrite H.
Qed.

(** X21.  On a page that loads within the four attempts of the axios
    revision, the detectors of the two revisions do the same: the same
    result or error, and the same world after. *)
Theorem revisions_agree_when_page_loads
  (diffLines : string -> string -> list change)
  (url : string) (w : world) (pd : pageData) (n : nat) :
  Attempts w url (retryBound RevCheerio) (Snapshot pd) n ->
  detect RevPlaywright diffLines url w = detect RevCheerio diffLines url w.
Proof.
  intros Ha. rewrite !detect_unfold. apply detector_same_fetch.
  rewrite (fetch_of_attempts RevCheerio _ _ _ _ _ Ha).
  apply fetch_of_attempts. eapply Attempts_more; [| exact Ha].
  simpl. unfold Cheerio.defaultRetries, Playwright.defaultRetries. lia.
Qed.

Lemma revisions_agree_witness :
  detect RevPlaywright LineDiff.diffLines demoUrl samePage
  = detect RevCheerio LineDiff.diffLines demoUrl samePage.
Proof.
  apply (revisions_agree_when_page_loads LineDiff.diffLines demoUrl samePage
           (PageData "Hello" "T") 2).
  script_attempts.
Defined.

(** X22.  A URL without baseline whose page has no text: the comparison
    with the initial [lastContent = ''] finds them equal, so the detector
    writes nothing and returns [{ updated: false, isNew: true }]; the task
    files the URL under [newUrls] with no title, and the baseline is still
    missing afterwards, so the next run does the same. *)
Theorem blank_page_without_baseline_stays_new
  (diffLines : string -> string -> list change)
  (rev : revision) (url : string) (w : world) (pd : pageData) (n : nat) :
  Attempts w url (retryBound rev) (Snapshot pd) n ->
  stat w (lastContentFile url) = Throw (SystemError "ENOENT") ->
  content pd = EmptyString ->
  let w' := afterRead (lastContentFile url) (afterLoads url n w) in
  detect rev diffLines url w = (Ret (Result false true false None None), w')
  /\ task rev diffLines url w
     = (Ret tt, setNewUrls (newUrls w ++ [NewEntry url None]) w')
  /\ files w' = files w
  /\ stat w' (lastContentFile url) = Throw (SystemError "ENOENT").
Proof.
  intros Ha Hs He w'.
  assert (Hd : detect rev diffLines url w
               = (Ret (Result false true false None None), w'))
    by (eapply detect_missing_empty; eassumption).
  split; [exact Hd |]. split.
  - rewrite task_unfold, Hd. unfold collect, pushNewUrl. simpl.
    destruct (arrays_afterLoads url n w) as (_ & -> & _). reflexivity.
  - split; [apply files_afterLoads |].
    unfold w'. now rewrite stat_afterRead, stat_afterLoads.
Qed.

Lemma blank_page_witness :
  task RevPlaywright LineDiff.diffLines demoUrl blankPage
  = (Ret tt,
     setNewUrls [NewEntry demoUrl None]
       (afterRead demoFile (afterLoads demoUrl 1 blankPage))).
Proof.
  pose proof (blank_page_without_baseline_stays_new LineDiff.diffLines
                RevPlaywright demoUrl blankPage (PageData EmptyString "T") 1)
    as H.
  cbv zeta in H.
  destruct H as (_ & H2 & _); [script_attempts | reflexivity | reflexivity |].
  exact H2.
Defined.

(** X23.  The flags of every result agree with each other: an error result
    is neither [updated] nor [isNew]; a result carries a title exactly when
    it is [updated], and hunks exactly when it is [updated]; its hunks are
    all added or removed. *)
Theorem result_flags_are_consistent
  (rev : revision) (diffLines : string -> string -> list change)
  (url : string) (w w' : world) (r : result) :
  detect rev diffLines url w = (Ret r, w') ->
  (error r = true -> updated r = false /\ isNew r = false)
  /\ (updated r = true <-> is_Some (resultTitle r))
  /\ (updated r = true <-> is_Some (changes r))
  /\ (forall hunks, changes r = Some hunks ->
        Forall (fun c => isEdit c = true) hunks).
Proof.
  assert (Hfilter : forall l : list change,
             Forall (fun c => isEdit c = true)
                    (filter (fun c => isEdit c = true) l)).
  { intros l. apply Forall_forall. intros c Hc.
    now apply list_elem_of_filter in Hc. }
  revert w' r. detect_paths rev url w; intros w' r H;
    try discriminate; injection H as <- <-; simpl;
    (split; [intros; try discriminate; auto |]);
    (split; [split; [intros; try discriminate; eauto
                    | intros [x Hx]; try discriminate; auto] |]);
    (split; [split; [intros; try discriminate; eauto
                    | intros [x Hx]; try discriminate; auto] |]);
    intros hunks Hh; try discriminate; injection Hh as <-; apply Hfilter.
Qed.

Lemma result_flags_witness :
  Forall (fun c => isEdit c = true)
         [Change "old" false true; Change "new" true false].
Proof.
  destruct (result_flags_are_consistent RevCheerio LineDiff.diffLines demoUrl
              stalePage
              (snd (detect RevCheerio LineDiff.diffLines demoUrl stalePage))
              (Result true false false (Some "T")
                 (Some [Change "old" false true; Change "new" true false])))
    as (_ & _ & _ & H); [vm_compute; reflexivity |].
  apply H. reflexivity.
Defined.
